(** * Running-average accumulators of [neuralprophet/metrics.py]

    A shallow embedding of the [Metric] class and of its four concrete
    subclasses [MAE], [MSE], [Loss] and [Value], together with the parts of
    Python and of torch their methods call, followed by the properties of
    the [reset] / [update] / [compute] life cycle.

    Numbers.  Python's [int] and [float] values that flow through [_sum] are
    embedded as exact rationals extended with [NaN] (the value torch gives
    to the mean of an empty tensor).  Rounding, overflow and infinities of
    binary floating point are not part of the model. *)

From Stdlib Require Import ZArith QArith Qabs Qcanon Qcabs Qround.
From Stdlib Require Import List String Ascii Lia DecimalString.
Import ListNotations.

(* ===================================================================== *)
(** * Python: exceptions, numbers, the state-and-exception monad          *)
(* ===================================================================== *)

Module Py.

(** Exceptions raised by the modelled code, with their arguments. *)
Inductive exn : Type :=
| ValueError (args : list string)
| IndexError (args : list string)
| RuntimeError (args : list string)
| ZeroDivisionError (args : list string).

(** Outcome of a call: a returned value or a raised exception. *)
Inductive result (A : Type) : Type :=
| Ok (a : A)
| Raise (e : exn).
Arguments Ok {A} a.
Arguments Raise {A} e.

(** A number: an exact rational, or not-a-number. *)
Inductive scalar : Type :=
| Fin (q : Qc)
| NaN.

Definition of_int (z : Z) : scalar := Fin (Q2Qc (inject_Z z)).

Definition lift2 (f : Qc -> Qc -> Qc) (a b : scalar) : scalar :=
  match a, b with
  | Fin x, Fin y => Fin (f x y)
  | _, _ => NaN
  end.

Definition add : scalar -> scalar -> scalar := lift2 Qcplus.
Definition sub : scalar -> scalar -> scalar := lift2 Qcminus.
Definition mul : scalar -> scalar -> scalar := lift2 Qcmult.

Definition abs (a : scalar) : scalar :=
  match a with Fin x => Fin (Qcabs x) | NaN => NaN end.

(** [x ** 2]. *)
Definition square (a : scalar) : scalar := mul a a.

(** Python's [a / n] for an [int] divisor: raises on a zero divisor. *)
Definition truediv (a : scalar) (n : Z) : result scalar :=
  if (n =? 0)%Z
  then Raise (ZeroDivisionError ["float division by zero"%string])
  else Ok (lift2 Qcdiv a (of_int n)).

(** [a >= 0] on numbers; false on NaN, like every comparison with NaN. *)
Definition nonneg (a : scalar) : Prop :=
  match a with Fin x => (0 <= x)%Qc | NaN => False end.

Definition is_real (a : scalar) : Prop :=
  match a with Fin _ => True | NaN => False end.

(** Computations over a mutable object [S] that may raise: the object
    keeps whatever was written to it before the exception. *)
Definition M (S A : Type) : Type := S -> S * result A.

Definition ret {S A} (a : A) : M S A := fun s => (s, Ok a).

Definition bind {S A B} (c : M S A) (k : A -> M S B) : M S B :=
  fun s =>
    match c s with
    | (s', Ok a) => k a s'
    | (s', Raise e) => (s', Raise e)
    end.

Definition raise {S A} (e : exn) : M S A := fun s => (s, Raise e).

(** Reading an attribute and writing the object. *)
Definition gets {S A} (f : S -> A) : M S A := fun s => (s, Ok (f s)).
Definition modify {S} (f : S -> S) : M S unit := fun s => (f s, Ok tt).

(** A call that does not touch the object. *)
Definition call {S A} (r : result A) : M S A := fun s => (s, r).

Definition map_result {A B} (f : A -> B) (r : result A) : result B :=
  match r with Ok a => Ok (f a) | Raise e => Raise e end.

End Py.

Import Py.

Declare Scope py_scope.
Delimit Scope py_scope with py.
Notation "x <- c ;; k" := (bind c (fun x => k))
(at level 61, c at next level, right associativity) : py_scope.
Notation "c ;; k" := (bind c (fun _ => k))
(at level 61, right associativity) : py_scope.

(* ===================================================================== *)
(** * torch: tensors and the operations the metrics call                  *)
(* ===================================================================== *)

Module Torch.

(** A tensor of a floating-point dtype: its shape and its elements in
    row-major order.  Tensors of an integer dtype, on which [torch.mean]
    raises, are not part of the model. *)
Record Tensor : Type := mkTensor { shape : list nat; data : list scalar }.

Definition numel_of (s : list nat) : nat := fold_right Nat.mul 1%nat s.

(** A tensor holds as many elements as its shape says. *)
Definition wf (t : Tensor) : Prop := List.length (data t) = numel_of (shape t).

(** Every element is a real number. *)
Definition real_valued (t : Tensor) : Prop := Forall is_real (data t).

(** A 0-dimensional tensor. *)
Definition scalar_tensor (x : scalar) : Tensor := mkTensor [] [x].

(** [t.shape[0]]: indexing the empty shape tuple raises. *)
Definition shape0 (t : Tensor) : result nat :=
  match shape t with
  | n :: _ => Ok n
  | [] => Raise (IndexError ["tuple index out of range"%string])
  end.

(** [len(t.shape)]. *)
Definition rank (t : Tensor) : nat := List.length (shape t).

(** Broadcasting of one dimension against another. *)
Definition broadcast_dim (x y : nat) : option nat :=
  if (x =? y)%nat then Some x
  else if (x =? 1)%nat then Some y
  else if (y =? 1)%nat then Some x
  else None.

(** Broadcasting of two shapes given last dimension first. *)
Fixpoint broadcast_rev (a b : list nat) : option (list nat) :=
  match a, b with
  | [], _ => Some b
  | _, [] => Some a
  | x :: a', y :: b' =>
      match broadcast_dim x y, broadcast_rev a' b' with
      | Some d, Some r => Some (d :: r)
      | _, _ => None
      end
  end.

Definition broadcast_shapes (a b : list nat) : option (list nat) :=
  option_map (@rev nat) (broadcast_rev (rev a) (rev b)).

(** All multi-indices of a shape, in row-major order. *)
Fixpoint indices (s : list nat) : list (list nat) :=
  match s with
  | [] => [[]]
  | d :: s' => flat_map (fun i => map (cons i) (indices s')) (seq 0 d)
  end.

(** Row-major offset of a multi-index in a tensor it is broadcast from;
    shape and index are given last dimension first, a dimension of size 1
    is read at position 0, and leading dimensions the tensor lacks are
    ignored. *)
Fixpoint offset_rev (s idx : list nat) : nat :=
  match s, idx with
  | d :: s', i :: idx' =>
      ((if (d =? 1)%nat then 0 else i) + d * offset_rev s' idx')%nat
  | _, _ => 0%nat
  end.

Definition get (t : Tensor) (idx : list nat) : scalar :=
  nth (offset_rev (rev (shape t)) (rev idx)) (data t) NaN.

Definition string_of_size (n : nat) : string :=
  NilZero.string_of_uint (Nat.to_uint n).

(** The first pair of sizes that do not broadcast, scanning from the last
    dimension, and how many dimensions come after it; shapes are given
    last dimension first. *)
Fixpoint mismatch_rev (a b : list nat) (after : nat)
  : option (nat * nat * nat) :=
  match a, b with
  | x :: a', y :: b' =>
      match broadcast_dim x y with
      | Some _ => mismatch_rev a' b' (S after)
      | None => Some (x, y, after)
      end
  | _, _ => None
  end.

(** The message of the error torch raises on shapes that do not
    broadcast. *)
Definition size_mismatch_message (a b : list nat) : string :=
  match mismatch_rev (rev a) (rev b) 0 with
  | Some (x, y, after) =>
      ("The size of tensor a (" ++ string_of_size x
       ++ ") must match the size of tensor b (" ++ string_of_size y
       ++ ") at non-singleton dimension "
       ++ string_of_size
            (Nat.max (List.length a) (List.length b) - 1 - after))%string
  | None => EmptyString
  end.

(** An element-wise binary operation with broadcasting. *)
Definition binop (f : scalar -> scalar -> scalar) (a b : Tensor)
  : result Tensor :=
  match broadcast_shapes (shape a) (shape b) with
  | Some s =>
      Ok (mkTensor s (map (fun idx => f (get a idx) (get b idx)) (indices s)))
  | None =>
      Raise (RuntimeError [size_mismatch_message (shape a) (shape b)])
  end.

(** [a - b]. *)
Definition tsub : Tensor -> Tensor -> result Tensor := binop sub.

(** [torch.abs(t)]. *)
Definition tabs (t : Tensor) : Tensor :=
  mkTensor (shape t) (map abs (data t)).

(** [torch.pow(t, 2)]. *)
Definition tpow2 (t : Tensor) : Tensor :=
  mkTensor (shape t) (map square (data t)).

Definition sum_list (l : list scalar) : scalar :=
  fold_left add l (Fin 0%Qc).

(** [torch.mean(t)] of a floating-point tensor: a 0-dimensional tensor;
    NaN for an empty tensor. *)
Definition mean (t : Tensor) : Tensor :=
  scalar_tensor
    match data t with
    | [] => NaN
    | _ :: _ =>
        lift2 Qcdiv (sum_list (data t)) (of_int (Z.of_nat (List.length (data t))))
    end.

(** [t.item()]: the value of a tensor of exactly one element. *)
Definition item (t : Tensor) : result scalar :=
  match data t with
  | [x] => Ok x
  | _ =>
      Raise (ValueError
        ["only one element tensors can be converted to Python scalars"%string])
  end.

(** [t.data]: the same tensor, detached from the autograd graph. *)
Definition detach (t : Tensor) : Tensor := t.

End Torch.

Import Torch.

Open Scope Z_scope.
Open Scope string_scope.
Open Scope py_scope.

(* ===================================================================== *)
(** * Python's [format] for the specification ["{:8.3f}"]                 *)
(* ===================================================================== *)

(** Nearest integer, ties to even. *)
Definition round_half_even (q : Q) : Z :=
  let f := Qfloor q in
  match Qcompare (q - inject_Z f) (1 # 2) with
  | Lt => f
  | Gt => f + 1
  | Eq => if Z.even f then f else f + 1
  end.

Definition string_of_nonneg (z : Z) : string :=
  NilZero.string_of_uint (N.to_uint (Z.to_N z)).

Fixpoint spaces (n : nat) : string :=
  match n with
  | O => ""
  | S n' => String " " (spaces n')
  end.

(** Right-justify in a field of the given width. *)
Definition pad_left (width : nat) (s : string) : string :=
  spaces (width - String.length s) ++ s.

Definition zero_fill (width : nat) (s : string) : string :=
  NilEmpty.string_of_uint (Nat.iter (width - String.length s) Decimal.D0 Decimal.Nil) ++ s.

(** Fixed-point notation with three digits after the point. *)
Definition format_3f (x : scalar) : string :=
  match x with
  | NaN => "nan"
  | Fin q =>
      let n := round_half_even (Qabs q * inject_Z 1000) in
      (if Qle_bool 0 q then "" else "-")
        ++ string_of_nonneg (n / 1000) ++ "."
        ++ zero_fill 3 (string_of_nonneg (n mod 1000))
  end.

Definition format_8_3f (x : scalar) : string := pad_left 8 (format_3f x).

(* ===================================================================== *)
(** * class Metric                                                        *)
(* ===================================================================== *)

(** The attributes every metric object carries. *)
Record Metric : Type := mkMetric {
  name : string;
  _sum : scalar;
  _num_examples : Z;
  stored_values : list scalar;
  total_updates : Z
}.

Definition set_sum (v : scalar) (self : Metric) : Metric :=
  mkMetric (name self) v (_num_examples self) (stored_values self)
    (total_updates self).

Definition set_num_examples (v : Z) (self : Metric) : Metric :=
  mkMetric (name self) (_sum self) v (stored_values self) (total_updates self).

Definition set_stored_values (v : list scalar) (self : Metric) : Metric :=
  mkMetric (name self) (_sum self) (_num_examples self) v (total_updates self).

Definition set_total_updates (v : Z) (self : Metric) : Metric :=
  mkMetric (name self) (_sum self) (_num_examples self) (stored_values self) v.

(** [self.total_updates += 1]. *)
Definition incr_total_updates : M Metric unit :=
  modify (fun self => set_total_updates (total_updates self + 1) self).

(** [Metric.__init__(self, name=None)], on an object whose class is named
    [class_name]. *)
Definition Metric_init (class_name : string) (name : option string) : Metric :=
  mkMetric
    (match name with None => class_name | Some n => n end)
    (of_int 0) 0 [] 0.

(** [Metric.reset(self)]. *)
Definition reset : M Metric unit :=
  modify (set_sum (of_int 0)) ;;
  modify (set_num_examples 0).

(** [Metric.update(self, predicted, target)], the base implementation. *)
Definition Metric_update (predicted target : Tensor) : M Metric unit :=
  incr_total_updates ;;
  ret tt.

(** [Metric.no_sample_error(self)]. *)
Definition no_sample_error : M Metric unit :=
  n <- gets name ;;
  raise (ValueError
    [n; " must have at least one example before it can be computed."]).

(** [Metric.compute(self, save=False)]. *)
Definition compute (save : bool) : M Metric scalar :=
  n <- gets _num_examples ;;
  (if (n =? 0)%Z then no_sample_error else ret tt) ;;
  s <- gets _sum ;;
  n <- gets _num_examples ;;
  value <- call (truediv s n) ;;
  (if save
   then modify (fun self =>
          set_stored_values (stored_values self ++ [value])%list self)
   else ret tt) ;;
  ret value.

(** [Metric.__str__(self)]. *)
Definition __str__ : M Metric string :=
  n <- gets name ;;
  v <- compute false ;;
  ret (n ++ ": " ++ format_8_3f v).

(* ===================================================================== *)
(** * class MAE, class MSE                                                *)
(* ===================================================================== *)

Definition MAE_init : Metric := Metric_init "MAE" None.

(** [MAE.update(self, predicted, target)]. *)
Definition MAE_update (predicted target : Tensor) : M Metric unit :=
  incr_total_updates ;;
  num <- call (shape0 target) ;;
  absolute_errors <- call (map_result tabs (tsub predicted target)) ;;
  r <- call (item (mean absolute_errors)) ;;
  modify (fun self =>
    set_sum (add (_sum self) (mul r (of_int (Z.of_nat num)))) self) ;;
  num' <- call (shape0 target) ;;
  modify (fun self =>
    set_num_examples (_num_examples self + Z.of_nat num') self).

Definition MSE_init : Metric := Metric_init "MSE" None.

(** [MSE.update(self, predicted, target)]. *)
Definition MSE_update (predicted target : Tensor) : M Metric unit :=
  incr_total_updates ;;
  num <- call (shape0 target) ;;
  squared_errors <- call (map_result tpow2 (tsub predicted target)) ;;
  r <- call (item (mean squared_errors)) ;;
  modify (fun self =>
    set_sum (add (_sum self) (mul r (of_int (Z.of_nat num)))) self) ;;
  modify (fun self =>
    set_num_examples (_num_examples self + Z.of_nat num) self).

(* ===================================================================== *)
(** * class Loss                                                          *)
(* ===================================================================== *)

(** Extra keyword arguments forwarded to the loss function. *)
Definition Kwargs : Type := list (string * Tensor).

(** The injected loss function: a callable object, with the name of its
    class and what calling it returns. *)
Record LossFn : Type := mkLossFn {
  loss_class_name : string;
  loss_call : Tensor -> Tensor -> Kwargs -> result Tensor
}.

(** [Loss.__init__(self, loss_fn)]; the attribute [_loss_fn] is written
    here and nowhere else, so the methods below take it as an argument. *)
Definition Loss_init (loss_fn : LossFn) : Metric :=
  Metric_init "Loss" (Some (loss_class_name loss_fn)).

(** The exception [Loss.update] raises on a loss that is not 0-dimensional. *)
Definition ShapeError : exn :=
  ValueError ["loss_fn did not return the average loss."].

(** The exception [no_sample_error] raises for a metric named [n]. *)
Definition NoSampleError (n : string) : exn :=
  ValueError [n; " must have at least one example before it can be computed."].

(** [Loss.update(self, predicted, target, **kwargs)]. *)
Definition Loss_update (_loss_fn : LossFn) (predicted target : Tensor)
    (kwargs : Kwargs) : M Metric unit :=
  incr_total_updates ;;
  num <- call (shape0 target) ;;
  average_loss <- call (loss_call _loss_fn predicted target kwargs) ;;
  (if negb (Nat.eqb (rank average_loss) 0)
   then raise ShapeError
   else ret tt) ;;
  r <- call (item average_loss) ;;
  modify (fun self =>
    set_sum (add (_sum self) (mul r (of_int (Z.of_nat num)))) self) ;;
  modify (fun self =>
    set_num_examples (_num_examples self + Z.of_nat num) self).

(* ===================================================================== *)
(** * class Value                                                         *)
(* ===================================================================== *)

(** [Value.__init__(self, name)]; [name] may be [None]. *)
Definition Value_init (name : option string) : Metric :=
  Metric_init "Value" name.

(** [Value.update(self, avg_value, num)]. *)
Definition Value_update (avg_value : Tensor) (num : Z) : M Metric unit :=
  incr_total_updates ;;
  r <- call (item (detach avg_value)) ;;
  modify (fun self => set_sum (add (_sum self) (mul r (of_int num))) self) ;;
  modify (fun self => set_num_examples (_num_examples self + num) self).

(* ===================================================================== *)
(** * The four concrete metrics behind one interface                      *)
(* ===================================================================== *)

(** The concrete class of a metric object, with the attributes its
    constructor fixes. *)
Inductive variant : Type :=
| VMAE
| VMSE
| VLoss (_loss_fn : LossFn)
| VValue.

(** The arguments of one [Loss.update] call. *)
Inductive batch : Type :=
| Batch (predicted target : Tensor) (kwargs : Kwargs).

(** The arguments of one [update] call, by class. *)
Definition args (v : variant) : Type :=
  match v with
  | VMAE | VMSE => (Tensor * Tensor)%type
  | VLoss _ => batch
  | VValue => (Tensor * Z)%type
  end.

(** [self.update(...)], dispatched on the class of [self]. *)
Definition update (v : variant) : args v -> M Metric unit :=
  match v return args v -> M Metric unit with
  | VMAE => fun a => MAE_update (fst a) (snd a)
  | VMSE => fun a => MSE_update (fst a) (snd a)
  | VLoss f => fun a => let 'Batch p t kw := a in Loss_update f p t kw
  | VValue => fun a => Value_update (fst a) (snd a)
  end.

(** A run of [update] calls in which every call returns. *)
Fixpoint updates (v : variant) (calls : list (args v)) : M Metric unit :=
  match calls with
  | [] => ret tt
  | a :: rest => update v a ;; updates v rest
  end.

(** The object after a run of [update] calls whose exceptions, if any,
    the caller caught. *)
Definition after_updates (v : variant) (calls : list (args v)) (m : Metric)
  : Metric :=
  fold_left (fun s a => fst (update v a s)) calls m.

(** How an object of each class is constructed. *)
Inductive constructor : Type :=
| NewMAE
| NewMSE
| NewLoss (loss_fn : LossFn)
| NewValue (name : option string).

Definition construct (c : constructor) : Metric :=
  match c with
  | NewMAE => MAE_init
  | NewMSE => MSE_init
  | NewLoss f => Loss_init f
  | NewValue n => Value_init n
  end.

(** [type(self).__name__] of the constructed object. *)
Definition type_name (c : constructor) : string :=
  match c with
  | NewMAE => "MAE"
  | NewMSE => "MSE"
  | NewLoss _ => "Loss"
  | NewValue _ => "Value"
  end.

(** Whether the caller of the constructor passes a name. *)
Definition names_explicitly (c : constructor) : bool :=
  match c with
  | NewValue (Some _) => true
  | _ => false
  end.

(* ===================================================================== *)
(** * The weighted mean, as the specification words it                    *)
(* ===================================================================== *)

Definition and_then {A B} (r : result A) (k : A -> result B) : result B :=
  match r with Ok a => k a | Raise e => Raise e end.

(** The per-batch reduction of the specification's table. *)
Definition spec_reduction (v : variant) : args v -> result scalar :=
  match v return args v -> result scalar with
  | VMAE => fun a =>
      and_then (tsub (fst a) (snd a)) (fun d => item (mean (tabs d)))
  | VMSE => fun a =>
      and_then (tsub (fst a) (snd a)) (fun d => item (mean (tpow2 d)))
  | VLoss f => fun a =>
      let 'Batch p t kw := a in and_then (loss_call f p t kw) item
  | VValue => fun a => item (fst a)
  end.

(** The weight of the specification's table. *)
Definition spec_weight (v : variant) : args v -> result Z :=
  match v return args v -> result Z with
  | VMAE | VMSE => fun a => map_result Z.of_nat (shape0 (snd a))
  | VLoss _ => fun a =>
      let 'Batch _ t _ := a in map_result Z.of_nat (shape0 t)
  | VValue => fun a => Ok (snd a)
  end.

(** Call [a] contributes reduction [r] with weight [n]. *)
Definition contributes (v : variant) (a : args v) (rn : scalar * Z) : Prop :=
  spec_reduction v a = Ok (fst rn) /\ spec_weight v a = Ok (snd rn).

(** [r_1*n_1 + ... + r_k*n_k]. *)
Fixpoint weighted_sum (l : list (scalar * Z)) : scalar :=
  match l with
  | [] => of_int 0
  | (r, n) :: l' => add (mul r (of_int n)) (weighted_sum l')
  end.

(** [n_1 + ... + n_k]. *)
Fixpoint total_weight (l : list (scalar * Z)) : Z :=
  match l with
  | [] => 0
  | (_, n) :: l' => n + total_weight l'
  end.

(** The quotient of a number by an integer. *)
Definition quotient (a : scalar) (n : Z) : scalar :=
  lift2 Qcdiv a (of_int n).

Definition weighted_mean (l : list (scalar * Z)) : scalar :=
  quotient (weighted_sum l) (total_weight l).

(* ===================================================================== *)
(** * Conditions on batches                                               *)
(* ===================================================================== *)

(** The two metrics of an error between [predicted] and [target]. *)
Definition is_error_metric (v : variant) : bool :=
  match v with
  | VMAE | VMSE => true
  | _ => false
  end.

(** A well-formed tensor of real numbers. *)
Definition real_tensor (t : Tensor) : Prop := wf t /\ real_valued t.

(** A well-formed tensor of real numbers with at least one element. *)
Definition nonempty_real_tensor (t : Tensor) : Prop :=
  real_tensor t /\ data t <> [].

(** Both tensors of a [MAE] or [MSE] call satisfy [P]. *)
Definition on_batch (P : Tensor -> Prop) (v : variant) : args v -> Prop :=
  match v return args v -> Prop with
  | VMAE | VMSE => fun a => P (fst a) /\ P (snd a)
  | VLoss _ | VValue => fun _ => True
  end.

(** The weight a [Value] call passes is not negative. *)
Definition weight_nonneg (v : variant) : args v -> Prop :=
  match v return args v -> Prop with
  | VValue => fun a => 0 <= snd a
  | _ => fun _ => True
  end.

(* ===================================================================== *)
(** * Sample inputs                                                       *)
(* ===================================================================== *)

(** A 1-dimensional floating-point tensor holding whole numbers. *)
Definition vec (l : list Z) : Tensor :=
  mkTensor [List.length l] (map of_int l).

(** [update([1,2,3], [1,1,1])] then [update([5], [0])]. *)
Definition two_batches : list (args VMAE) :=
  [(vec [1; 2; 3], vec [1; 1; 1]); (vec [5], vec [0])].

(** An empty batch, then [update([5], [0])]. *)
Definition empty_then_one : list (args VMAE) :=
  [(vec [], vec []); (vec [5], vec [0])].

(** [update(0.1, 10)] then [update(0.2, 10)] on a [Value] metric. *)
Definition two_values : list (args VValue) :=
  [(scalar_tensor (Fin (Q2Qc (1 # 10))), 10);
   (scalar_tensor (Fin (Q2Qc (2 # 10))), 10)].

(** A loss object of class [MSELoss] with reduction ["mean"]. *)
Definition MSELoss : LossFn :=
  mkLossFn "MSELoss"
    (fun input target _ => map_result (fun d => mean (tpow2 d)) (tsub input target)).

(** A loss object of class [L1Loss] with reduction ["none"]: it returns the
    element-wise errors. *)
Definition L1Loss_unreduced : LossFn :=
  mkLossFn "L1Loss"
    (fun input target _ => map_result tabs (tsub input target)).

(** The value a call returned, or [d] if it raised. *)
Definition result_or {A} (d : A) (r : result A) : A :=
  match r with Ok a => a | Raise _ => d end.

(** A metric that has seen four samples summing to eight. *)
Definition eight_over_four : Metric :=
  mkMetric "MAE" (of_int 8) 4 [] 2.

(* ===================================================================== *)
(** * The life of a metric object                                         *)
(* ===================================================================== *)

(** One call on a metric object of class [v]. *)
Inductive op (v : variant) : Type :=
| OpReset
| OpUpdate (a : args v)
| OpCompute (save : bool)
| OpStr.
Arguments OpReset {v}.
Arguments OpUpdate {v} a.
Arguments OpCompute {v} save.
Arguments OpStr {v}.

(** What a call returns. *)
Inductive value : Type :=
| VNone
| VNum (x : scalar)
| VStr (s : string).

Definition run_op (v : variant) (o : op v) : M Metric value :=
  match o with
  | OpReset => reset ;; ret VNone
  | OpUpdate a => update v a ;; ret VNone
  | OpCompute save => x <- compute save ;; ret (VNum x)
  | OpStr => s <- __str__ ;; ret (VStr s)
  end.

(** A sequence of calls whose exceptions the caller catches: the final
    object and the outcome of each call. *)
Fixpoint run_ops (v : variant) (ops : list (op v)) (m : Metric)
  : Metric * list (result value) :=
  match ops with
  | [] => (m, [])
  | o :: rest =>
      let (m1, r) := run_op v o m in
      let (m2, rs) := run_ops v rest m1 in
      (m2, r :: rs)
  end.

Definition is_update {v : variant} (o : op v) : bool :=
  match o with OpUpdate _ => true | _ => false end.

(** The number of [update] calls in a sequence. *)
Definition count_updates {v : variant} (ops : list (op v)) : nat :=
  List.length (filter is_update ops).

(** The values returned by the [compute(save=True)] calls of a sequence,
    read off the outcomes of its calls. *)
Fixpoint saved {v : variant} (ops : list (op v)) (rs : list (result value))
  : list scalar :=
  match ops, rs with
  | OpCompute true :: ops', Ok (VNum x) :: rs' => x :: saved ops' rs'
  | _ :: ops', _ :: rs' => saved ops' rs'
  | _, _ => []
  end.

(** What an [update] call computes before it writes [_sum]: the reduction
    and the weight, or the exception that ends the call. *)
Definition batch_effect (v : variant) : args v -> result (scalar * Z) :=
  match v return args v -> result (scalar * Z) with
  | VMAE => fun a =>
      and_then (shape0 (snd a)) (fun num =>
      and_then (map_result tabs (tsub (fst a) (snd a))) (fun absolute_errors =>
      and_then (item (mean absolute_errors)) (fun r =>
      Ok (r, Z.of_nat num))))
  | VMSE => fun a =>
      and_then (shape0 (snd a)) (fun num =>
      and_then (map_result tpow2 (tsub (fst a) (snd a))) (fun squared_errors =>
      and_then (item (mean squared_errors)) (fun r =>
      Ok (r, Z.of_nat num))))
  | VLoss f => fun a =>
      let 'Batch p t kw := a in
      and_then (shape0 t) (fun num =>
      and_then (loss_call f p t kw) (fun average_loss =>
      if negb (Nat.eqb (rank average_loss) 0)
      then Raise ShapeError
      else and_then (item average_loss) (fun r => Ok (r, Z.of_nat num))))
  | VValue => fun a =>
      and_then (item (detach (fst a))) (fun r => Ok (r, snd a))
  end.

(** One epoch after another: [reset] at the start of the epoch, one
    [update] per batch, [compute(save=True)] at its end. *)
Fixpoint run_epochs (v : variant) (epochs : list (list (args v))) (m : Metric)
  : Metric :=
  match epochs with
  | [] => m
  | calls :: rest =>
      run_epochs v rest
        (fst (compute true (after_updates v calls (fst (reset m)))))
  end.

(** The element-wise errors [g(p_i - t_i)] of two tensors of one shape. *)
Definition errors (g : scalar -> scalar) (p t : Tensor) : list scalar :=
  map (fun xy => g (sub (fst xy) (snd xy))) (combine (data p) (data t)).



(** A [MAE] metric after an empty batch. *)
Definition after_empty_batch : Metric :=
  fst (MAE_update (vec []) (vec []) MAE_init).

(** Two epochs of a [MAE] metric. *)
Definition two_epochs : list (list (args VMAE)) :=
  [two_batches; [(vec [5], vec [0])]].

(* ===================================================================== *)
(** * Arithmetic of numbers                                               *)
(* ===================================================================== *)

Close Scope string_scope.

Lemma add_assoc a b c : add (add a b) c = add a (add b c).
Proof.
  destruct a, b, c; simpl; try reflexivity.
  now rewrite Qcplus_assoc.
Qed.

Lemma add_zero_l a : add (of_int 0) a = a.
Proof.
  destruct a; simpl; try reflexivity.
  f_equal. apply Qcplus_0_l.
Qed.

Lemma Qc_nonneg_plus (x y : Qc) : (0 <= x -> 0 <= y -> 0 <= x + y)%Qc.
Proof.
  intros Hx Hy.
  replace (Q2Qc 0) with (0 + 0)%Qc by apply Qcplus_0_l.
  now apply Qcplus_le_compat.
Qed.

Lemma Qc_nonneg_mult (x y : Qc) : (0 <= x -> 0 <= y -> 0 <= x * y)%Qc.
Proof.
  intros Hx Hy.
  replace (Q2Qc 0) with (0 * y)%Qc by apply Qcmult_0_l.
  now apply Qcmult_le_compat_r.
Qed.


Lemma Qc_nonneg_square (x : Qc) : (0 <= x * x)%Qc.
Proof.
  destruct (Qclt_le_dec x 0) as [Hneg | Hpos].
  - replace (x * x)%Qc with ((- x) * (- x))%Qc by ring.
    assert (0 <= - x)%Qc.
    { apply Qclt_le_weak in Hneg. apply Qcopp_le_compat in Hneg.
      now replace (- 0)%Qc with (Q2Qc 0) in Hneg by ring. }
    now apply Qc_nonneg_mult.
  - now apply Qc_nonneg_mult.
Qed.

Lemma Qc_of_Z_nonneg (n : Z) : 0 <= n -> (0 <= Q2Qc (inject_Z n))%Qc.
Proof.
  intros Hn. unfold Qcle, Q2Qc. cbn [this]. apply Qred_le.
  unfold Qle. simpl. lia.
Qed.

Lemma Qc_of_Z_pos (n : Z) : 0 < n -> (0 < Q2Qc (inject_Z n))%Qc.
Proof.
  intros Hn. unfold Qclt, Q2Qc. cbn [this]. apply Qred_lt.
  unfold Qlt. simpl. lia.
Qed.

Lemma Qc_nonneg_div (x y : Qc) : (0 <= x -> 0 < y -> 0 <= x / y)%Qc.
Proof.
  intros Hx Hy. unfold Qcdiv. apply Qc_nonneg_mult; [assumption|].
  unfold Qclt in Hy. unfold Qcle, Qcinv, Q2Qc. cbn [this].
  apply Qred_le. apply Qinv_le_0_compat.
  apply Qlt_le_weak. exact Hy.
Qed.

Lemma nonneg_add a b : nonneg a -> nonneg b -> nonneg (add a b).
Proof. destruct a, b; simpl; try tauto. apply Qc_nonneg_plus. Qed.

Lemma nonneg_mul a b : nonneg a -> nonneg b -> nonneg (mul a b).
Proof. destruct a, b; simpl; try tauto. apply Qc_nonneg_mult. Qed.

Lemma nonneg_abs a : is_real a -> nonneg (abs a).
Proof. destruct a; simpl; [intros _; apply Qcabs_nonneg | tauto]. Qed.

Lemma nonneg_square a : is_real a -> nonneg (square a).
Proof. destruct a; simpl; [intros _; apply Qc_nonneg_square | tauto]. Qed.

Lemma nonneg_of_int n : 0 <= n -> nonneg (of_int n).
Proof. apply Qc_of_Z_nonneg. Qed.

Lemma nonneg_quotient a n : nonneg a -> 0 < n -> nonneg (quotient a n).
Proof.
  destruct a; simpl; [|tauto]. intros Ha Hn.
  apply Qc_nonneg_div; [assumption | now apply Qc_of_Z_pos].
Qed.

Ltac unfold_py :=
  unfold MAE_update, MSE_update, Loss_update, Value_update, Metric_update,
    compute, __str__, reset, no_sample_error, incr_total_updates,
    bind, call, modify, gets, ret, raise in *.

Lemma update_step v (a : args v) m :
  name (fst (update v a m)) = name m /\
  stored_values (fst (update v a m)) = stored_values m /\
  total_updates (fst (update v a m)) = total_updates m + 1 /\
  match snd (update v a m) with
  | Ok _ =>
      exists r n, contributes v a (r, n) /\
        _sum (fst (update v a m)) = add (_sum m) (mul r (of_int n)) /\
        _num_examples (fst (update v a m)) = _num_examples m + n
  | Raise _ =>
      _sum (fst (update v a m)) = _sum m /\
      _num_examples (fst (update v a m)) = _num_examples m
  end.
Proof.
  destruct v; [ destruct a as [p t] | destruct a as [p t]
              | destruct a as [p t kw] | destruct a as [t num] ];
    unfold update, contributes, spec_reduction, spec_weight; cbn [fst snd];
    unfold_py.
  - destruct (shape0 t) as [n|e]; cbn; [|tauto].
    destruct (tsub p t) as [d|e]; cbn; [|tauto].
    repeat split; eauto 10.
  - destruct (shape0 t) as [n|e]; cbn; [|tauto].
    destruct (tsub p t) as [d|e]; cbn; [|tauto].
    repeat split; eauto 10.
  - destruct (shape0 t) as [n|e]; cbn; [|tauto].
    destruct (loss_call _loss_fn p t kw) as [l|e]; cbn; [|tauto].
    destruct (Nat.eqb (rank l) 0); cbn; [|tauto].
    destruct (item l) as [x|e]; cbn; [|tauto].
    repeat split; eauto 10.
  - unfold detach. destruct (item t) as [x|e]; cbn; [|tauto].
    repeat split; eauto 10.
Qed.

Lemma add_zero_r a : add a (of_int 0) = a.
Proof.
  destruct a; simpl; try reflexivity.
  f_equal. apply Qcplus_0_r.
Qed.

Lemma compute_run save m :
  compute save m =
  if _num_examples m =? 0
  then (m, Raise (NoSampleError (name m)))
  else
    let value := quotient (_sum m) (_num_examples m) in
    (if save
     then set_stored_values (stored_values m ++ [value]) m
     else m, Ok value).
Proof.
  unfold_py. unfold truediv, quotient, NoSampleError.
  destruct (_num_examples m =? 0) eqn:E; cbn.
  - reflexivity.
  - rewrite E. destruct save; reflexivity.
Qed.

Lemma updates_accumulate v (calls : list (args v)) :
  forall m m',
    updates v calls m = (m', Ok tt) ->
    exists rs,
      Forall2 (contributes v) calls rs /\
      _sum m' = add (_sum m) (weighted_sum rs) /\
      _num_examples m' = _num_examples m + total_weight rs.
Proof.
  induction calls as [|a rest IH]; intros m m' Hrun; cbn in Hrun.
  - unfold ret in Hrun. inversion Hrun; subst m'.
    exists []. cbn. rewrite add_zero_r. repeat split; [constructor | lia].
  - unfold bind in Hrun.
    pose proof (update_step v a m) as (_ & _ & _ & Hstep).
    destruct (update v a m) as [m1 [[]|e]]; [|discriminate].
    cbn [fst snd] in Hstep.
    destruct Hstep as (r & n & Hc & Hs & Hn).
    destruct (IH _ _ Hrun) as (rs & Hall & Hs' & Hn').
    exists ((r, n) :: rs). cbn [weighted_sum total_weight].
    repeat split.
    + now constructor.
    + rewrite Hs', Hs. apply add_assoc.
    + lia.
Qed.


Lemma contributes_functional v (a : args v) rn rn' :
  contributes v a rn -> contributes v a rn' -> rn = rn'.
Proof.
  unfold contributes. destruct rn, rn'. cbn [fst snd].
  intros [H1 H2] [H3 H4]. congruence.
Qed.

Lemma contributions_functional v (calls : list (args v)) rs :
  Forall2 (contributes v) calls rs ->
  forall rs', Forall2 (contributes v) calls rs' -> rs = rs'.
Proof.
  induction 1 as [|a rn calls rs Hc _ IH]; intros rs' H'; inversion H'; subst.
  - reflexivity.
  - f_equal; [eapply contributes_functional; eauto | now apply IH].
Qed.


(* ===================================================================== *)
(** * Broadcasting                                                        *)
(* ===================================================================== *)

Lemma Forall2_rev {A B} (R : A -> B -> Prop) l l' :
  Forall2 R l l' -> Forall2 R (rev l) (rev l').
Proof.
  induction 1 as [|x y l l' Hxy _ IH]; cbn.
  - constructor.
  - apply Forall2_app; [exact IH | repeat constructor; exact Hxy].
Qed.

Lemma in_indices s : forall idx, In idx (indices s) -> Forall2 lt idx s.
Proof.
  induction s as [|d s IH]; cbn; intros idx Hin.
  - destruct Hin as [<-|[]]. constructor.
  - apply in_flat_map in Hin. destruct Hin as (i & Hi & Hin).
    apply in_map_iff in Hin. destruct Hin as (idx' & <- & Hin').
    apply in_seq in Hi. constructor; [lia | now apply IH].
Qed.

Lemma list_sum_const {A} (n : nat) (l : list A) :
  list_sum (map (fun _ => n) l) = (List.length l * n)%nat.
Proof. induction l as [|x l IH]; cbn; [reflexivity | f_equal; exact IH]. Qed.

Lemma length_indices s : List.length (indices s) = numel_of s.
Proof.
  induction s as [|d s IH]; cbn; [reflexivity|].
  rewrite length_flat_map.
  rewrite (map_ext _ (fun _ => numel_of s)).
  - now rewrite list_sum_const, length_seq.
  - intros i. now rewrite length_map.
Qed.

Lemma numel_of_cons d s : numel_of (d :: s) = (d * numel_of s)%nat.
Proof. reflexivity. Qed.

Lemma numel_of_app a b : numel_of (a ++ b) = (numel_of a * numel_of b)%nat.
Proof.
  induction a as [|x a IH].
  - cbn [app]. change (numel_of []) with 1%nat. lia.
  - cbn [app]. rewrite !numel_of_cons, IH. nia.
Qed.

Lemma numel_of_rev s : numel_of (rev s) = numel_of s.
Proof.
  induction s as [|d s IH]; [reflexivity|].
  cbn [rev]. rewrite numel_of_app, IH, !numel_of_cons.
  change (numel_of []) with 1%nat. nia.
Qed.

Lemma broadcast_dim_sym x y : broadcast_dim x y = broadcast_dim y x.
Proof.
  unfold broadcast_dim.
  destruct (Nat.eqb_spec x y), (Nat.eqb_spec y x), (Nat.eqb_spec x 1),
    (Nat.eqb_spec y 1); subst; congruence.
Qed.

Lemma broadcast_rev_sym a : forall b, broadcast_rev a b = broadcast_rev b a.
Proof.
  induction a as [|x a IH]; intros [|y b]; cbn; try reflexivity.
  now rewrite broadcast_dim_sym, IH.
Qed.

Lemma broadcast_dim_cases x y d :
  broadcast_dim x y = Some d -> (d = x \/ x = 1%nat) /\ (d = x \/ d = y).
Proof.
  unfold broadcast_dim.
  destruct (Nat.eqb_spec x y), (Nat.eqb_spec x 1), (Nat.eqb_spec y 1);
    intros [= <-]; subst; auto.
Qed.

Lemma broadcast_rev_nil_r a : broadcast_rev a [] = Some a.
Proof. destruct a; reflexivity. Qed.

Lemma offset_rev_step x a i idx :
  (offset_rev a idx < numel_of a)%nat ->
  (i < x \/ x = 1)%nat ->
  (offset_rev (x :: a) (i :: idx) < numel_of (x :: a))%nat.
Proof.
  intros Hoff Hi. rewrite numel_of_cons. cbn [offset_rev].
  destruct (Nat.eqb_spec x 1); nia.
Qed.

(** An index of the broadcast shape addresses an element of the operand. *)
Lemma offset_rev_in_range a :
  forall b r idx,
    broadcast_rev a b = Some r ->
    Forall2 lt idx r ->
    (offset_rev a idx < numel_of a)%nat.
Proof.
  induction a as [|x a IH]; intros b r idx Hb Hidx.
  - cbn. lia.
  - destruct b as [|y b]; cbn [broadcast_rev] in Hb.
    + injection Hb as <-. inversion Hidx as [|i d idx' r' Hi Hrest]; subst.
      apply (offset_rev_step x a i idx');
        [exact (IH [] a idx' (broadcast_rev_nil_r a) Hrest) | lia].
    + destruct (broadcast_dim x y) as [d|] eqn:Hd; [|discriminate].
      destruct (broadcast_rev a b) as [r'|] eqn:Hr; [|discriminate].
      injection Hb as <-. inversion Hidx as [|i d' idx' r'' Hi Hrest]; subst.
      apply (offset_rev_step x a i idx'); [exact (IH b r' idx' Hr Hrest)|].
      apply broadcast_dim_cases in Hd. destruct Hd as [[-> | ->] _]; lia.
Qed.

Lemma broadcast_rev_positive a :
  forall b r,
    broadcast_rev a b = Some r ->
    (0 < numel_of a)%nat -> (0 < numel_of b)%nat -> (0 < numel_of r)%nat.
Proof.
  induction a as [|x a IH]; intros b r Hb Ha Hnb.
  - cbn in Hb. now injection Hb as <-.
  - destruct b as [|y b]; cbn [broadcast_rev] in Hb.
    + now injection Hb as <-.
    + destruct (broadcast_dim x y) as [d|] eqn:Hd; [|discriminate].
      destruct (broadcast_rev a b) as [r'|] eqn:Hr; [|discriminate].
      injection Hb as <-. rewrite numel_of_cons in *.
      assert (0 < numel_of r')%nat by (apply (IH b r' Hr); nia).
      apply broadcast_dim_cases in Hd. destruct Hd as [_ [-> | ->]]; nia.
Qed.

Lemma get_real a b r idx :
  wf a -> real_valued a ->
  broadcast_rev (rev (shape a)) (rev (shape b)) = Some r ->
  Forall2 lt idx (rev r) ->
  is_real (get a idx).
Proof.
  intros Hwf Hreal Hb Hidx. unfold get.
  apply Forall_nth; [exact Hreal|].
  rewrite Hwf, <- numel_of_rev.
  apply (offset_rev_in_range _ _ r _ Hb).
  rewrite <- (rev_involutive r). now apply Forall2_rev.
Qed.

Lemma binop_real f a b d :
  (forall x y, is_real x -> is_real y -> is_real (f x y)) ->
  wf a -> wf b -> real_valued a -> real_valued b ->
  binop f a b = Ok d ->
  real_valued d.
Proof.
  intros Hf Hwa Hwb Hra Hrb. unfold binop, broadcast_shapes.
  destruct (broadcast_rev (rev (shape a)) (rev (shape b))) as [r|] eqn:Hr;
    cbn [option_map]; [|discriminate].
  intros [= <-]. unfold real_valued. cbn [data].
  apply Forall_map, Forall_forall. intros idx Hin.
  apply in_indices in Hin.
  apply Hf.
  - exact (get_real a b r idx Hwa Hra Hr Hin).
  - rewrite broadcast_rev_sym in Hr.
    exact (get_real b a r idx Hwb Hrb Hr Hin).
Qed.

Lemma binop_nonempty f a b d :
  wf a -> wf b -> data a <> [] -> data b <> [] ->
  binop f a b = Ok d ->
  data d <> [].
Proof.
  intros Hwa Hwb Hna Hnb. unfold binop, broadcast_shapes.
  destruct (broadcast_rev (rev (shape a)) (rev (shape b))) as [r|] eqn:Hr;
    cbn [option_map]; [|discriminate].
  intros [= <-]. cbn [data]. intros Hempty.
  apply (f_equal (@List.length _)) in Hempty.
  rewrite length_map, length_indices, numel_of_rev in Hempty.
  assert (0 < numel_of r)%nat; [|cbn in Hempty; lia].
  apply (broadcast_rev_positive _ _ r Hr); rewrite numel_of_rev.
  - rewrite <- Hwa. destruct (data a); [congruence | cbn; lia].
  - rewrite <- Hwb. destruct (data b); [congruence | cbn; lia].
Qed.

(* ===================================================================== *)
(** * The weighted-mean law                                               *)
(* ===================================================================== *)

Ltac scalar_eq :=
  vm_compute;
  repeat match goal with
         | |- Ok _ = Ok _ => apply f_equal
         | |- Fin _ = Fin _ => apply f_equal
         end;
  apply Qc_is_canon; reflexivity.


(** C1.  For each of the four classes: after a run of [update] calls that
    all return, started on an object whose [_sum] and [_num_examples] are 0
    (just constructed or just reset), where call [i] contributes the
    reduction [r_i] with the weight [n_i] of the specification's table and
    the weights do not sum to 0, [compute] returns
    [(r_1*n_1 + ... + r_k*n_k) / (n_1 + ... + n_k)]; and each returning
    call adds [r * n] to [_sum] and [n] to [_num_examples]. *)
Theorem weighted_mean_law v (calls : list (args v)) rs m m' save :
  updates v calls m = (m', Ok tt) ->
  Forall2 (contributes v) calls rs ->
  _sum m = of_int 0 ->
  _num_examples m = 0 ->
  total_weight rs <> 0 ->
  snd (compute save m') = Ok (weighted_mean rs) /\
  _sum m' = weighted_sum rs /\
  _num_examples m' = total_weight rs /\
  (forall (a : args v) r n s,
      contributes v a (r, n) ->
      snd (update v a s) = Ok tt ->
      _sum (fst (update v a s)) = add (_sum s) (mul r (of_int n)) /\
      _num_examples (fst (update v a s)) = _num_examples s + n).
Proof.
  intros Hrun Hrs Hs0 Hn0 Hw.
  destruct (updates_accumulate v calls m m' Hrun) as (rs' & Hall & Hs & Hn).
  rewrite (contributions_functional v calls rs Hrs rs' Hall) in *.
  rewrite Hs0, add_zero_l in Hs. rewrite Hn0 in Hn. cbn [Z.add] in Hn.
  split; [|split; [exact Hs | split; [exact Hn|]]].
  - rewrite compute_run, Hn, Hs.
    destruct (total_weight rs' =? 0) eqn:E; [lia | reflexivity].
  - intros a r n s Hc Hok.
    pose proof (update_step v a s) as (_ & _ & _ & Hstep).
    rewrite Hok in Hstep. destruct Hstep as (r' & n' & Hc' & Hsum & Hnum).
    pose proof (contributes_functional v a _ _ Hc Hc') as E.
    inversion E; subst. split; assumption.
Qed.

Lemma weighted_mean_law_witness :
  snd (compute false (fst (updates VMAE two_batches MAE_init)))
  = Ok (weighted_mean [(of_int 1, 3); (of_int 5, 1)]).
Proof.
  apply (weighted_mean_law VMAE two_batches
           [(of_int 1, 3); (of_int 5, 1)] MAE_init
           (fst (updates VMAE two_batches MAE_init)) false).
  - vm_compute. reflexivity.
  - repeat (apply Forall2_cons || apply Forall2_nil);
      (split; cbn [fst snd]; [scalar_eq | reflexivity]).
  - reflexivity.
  - reflexivity.
  - vm_compute. discriminate.
Defined.

(** The scenario of the specification: the mean absolute error over the
    batches [[1,2,3]] against [[1,1,1]] and [[5]] against [[0]] is 2. *)
Example two_batches_mean :
  snd (compute false (fst (updates VMAE two_batches MAE_init)))
  = Ok (of_int 2).
Proof. scalar_eq. Qed.

(** The scenario of the specification for a [Value] metric named ["lr"]:
    0.1 and 0.2, each with weight 10, average to 0.15. *)
Example two_values_mean :
  snd (compute false (fst (updates VValue two_values (Value_init (Some "lr"%string)))))
  = Ok (Fin (Q2Qc (15 # 100))).
Proof. scalar_eq. Qed.

(** A new object cannot be rendered, and one with samples renders its name
    and its mean to three decimal places in a field of eight. *)
Example render_two_batches :
  snd (__str__ MAE_init) = Raise (NoSampleError "MAE") /\
  snd (__str__ (fst (updates VMAE two_batches MAE_init)))
  = Ok "MAE:    2.000"%string.
Proof. split; reflexivity. Qed.

(* ===================================================================== *)
(** * compute, render and reset                                           *)
(* ===================================================================== *)

Lemma str_run m :
  __str__ m =
  match compute false m with
  | (m', Ok v) => (m', Ok (name m ++ ": " ++ format_8_3f v)%string)
  | (m', Raise e) => (m', Raise e)
  end.
Proof. reflexivity. Qed.

(** C2.  [compute] raises exactly when [_num_examples] is 0, and what it
    raises is the error of [no_sample_error]; otherwise it returns
    [_sum / _num_examples].  Rendering raises exactly what [compute]
    raises, so it fails with that error on an object without samples, in
    particular right after construction or [reset]. *)
Theorem compute_no_sample_error m save :
  (forall e, snd (compute save m) = Raise e <->
             _num_examples m = 0 /\ e = NoSampleError (name m)) /\
  (_num_examples m <> 0 ->
   snd (compute save m) = Ok (quotient (_sum m) (_num_examples m))) /\
  (forall e, snd (__str__ m) = Raise e <-> snd (compute false m) = Raise e) /\
  (_num_examples m = 0 -> snd (__str__ m) = Raise (NoSampleError (name m))) /\
  snd (__str__ (fst (reset m))) = Raise (NoSampleError (name m)) /\
  (forall class_name explicit_name,
      let fresh := Metric_init class_name explicit_name in
      snd (__str__ fresh) = Raise (NoSampleError (name fresh))).
Proof.
  assert (Hstr : forall m0 e,
             snd (__str__ m0) = Raise e <-> snd (compute false m0) = Raise e).
  { intros m0 e. rewrite str_run.
    destruct (compute false m0) as [m' [x|e']]; cbn [snd];
      [split; discriminate | split; intros [= ->]; reflexivity]. }
  assert (Hzero : forall m0, _num_examples m0 = 0 ->
             snd (__str__ m0) = Raise (NoSampleError (name m0))).
  { intros m0 Hz. apply Hstr. rewrite compute_run, Hz. reflexivity. }
  split; [|split; [|split; [|split; [|split]]]].
  - intros e. rewrite compute_run.
    destruct (Z.eqb_spec (_num_examples m) 0) as [Hz|Hnz]; cbn [snd].
    + split; [intros [= <-]; auto | intros [_ ->]; reflexivity].
    + split; [discriminate | tauto].
  - intros Hnz. rewrite compute_run.
    destruct (Z.eqb_spec (_num_examples m) 0); [contradiction | reflexivity].
  - apply Hstr.
  - apply Hzero.
  - apply (Hzero (fst (reset m))). reflexivity.
  - intros class_name explicit_name fresh. apply Hzero. reflexivity.
Qed.

Lemma compute_no_sample_error_witness :
  snd (compute false eight_over_four)
  = Ok (quotient (_sum eight_over_four) (_num_examples eight_over_four)).
Proof.
  apply (proj1 (proj2 (compute_no_sample_error eight_over_four false))).
  vm_compute. discriminate.
Defined.

(** C3.  [compute] never changes [_sum], [_num_examples] or
    [total_updates], whatever [save] is, and [compute(save=False)] changes
    nothing at all; on an object with [_num_examples > 0],
    [compute(save=True)] appends exactly one entry to [stored_values], the
    value it returns. *)
Theorem compute_frame m :
  (forall save,
      _sum (fst (compute save m)) = _sum m /\
      _num_examples (fst (compute save m)) = _num_examples m /\
      total_updates (fst (compute save m)) = total_updates m /\
      name (fst (compute save m)) = name m) /\
  fst (compute false m) = m /\
  (0 < _num_examples m ->
   exists value,
     snd (compute true m) = Ok value /\
     snd (compute false m) = Ok value /\
     value = quotient (_sum m) (_num_examples m) /\
     stored_values (fst (compute true m)) = stored_values m ++ [value] /\
     List.length (stored_values (fst (compute true m)))
       = S (List.length (stored_values m))).
Proof.
  split; [|split].
  - intros save. rewrite compute_run.
    destruct (_num_examples m =? 0), save; cbn; auto.
  - rewrite compute_run. destruct (_num_examples m =? 0); reflexivity.
  - intros Hpos. exists (quotient (_sum m) (_num_examples m)).
    rewrite !compute_run.
    destruct (Z.eqb_spec (_num_examples m) 0) as [Hz|_]; [lia|].
    cbn. rewrite length_app. cbn. repeat split; lia.
Qed.

Lemma compute_frame_witness :
  exists value,
    snd (compute true eight_over_four) = Ok value /\
    snd (compute false eight_over_four) = Ok value /\
    value = quotient (_sum eight_over_four) (_num_examples eight_over_four) /\
    stored_values (fst (compute true eight_over_four))
      = stored_values eight_over_four ++ [value] /\
    List.length (stored_values (fst (compute true eight_over_four)))
      = S (List.length (stored_values eight_over_four)).
Proof.
  apply (proj2 (proj2 (compute_frame eight_over_four))).
  vm_compute. reflexivity.
Defined.

(** C4.  [reset] sets [_sum] and [_num_examples] to 0, returns nothing and
    leaves [name], [stored_values] and [total_updates] as they were; a
    [compute] right after it raises the error of [no_sample_error]. *)
Theorem reset_frame m :
  reset m =
    (mkMetric (name m) (of_int 0) 0 (stored_values m) (total_updates m),
     Ok tt) /\
  (forall save,
      compute save (fst (reset m))
      = (fst (reset m), Raise (NoSampleError (name m)))).
Proof.
  split; [reflexivity|].
  intros save. rewrite compute_run. reflexivity.
Qed.

(* ===================================================================== *)
(** * update                                                              *)
(* ===================================================================== *)

(** What a raising [update] leaves behind: only the counter has moved. *)
Lemma update_raise v (a : args v) m e :
  snd (update v a m) = Raise e ->
  fst (update v a m) = set_total_updates (total_updates m + 1) m.
Proof.
  intros Hraise.
  pose proof (update_step v a m) as (Hname & Hstored & Hcount & Hstep).
  rewrite Hraise in Hstep. destruct Hstep as [Hsum Hnum].
  destruct (fst (update v a m)) as [n s c h u]. cbn in *.
  unfold set_total_updates. now subst.
Qed.

Lemma Loss_update_run f p t kw m n rest l :
  shape t = n :: rest ->
  loss_call f p t kw = Ok l ->
  Loss_update f p t kw m =
  if negb (Nat.eqb (rank l) 0)
  then (set_total_updates (total_updates m + 1) m, Raise ShapeError)
  else
    match item l with
    | Ok r =>
        (mkMetric (name m) (add (_sum m) (mul r (of_int (Z.of_nat n))))
           (_num_examples m + Z.of_nat n) (stored_values m)
           (total_updates m + 1), Ok tt)
    | Raise e => (set_total_updates (total_updates m + 1) m, Raise e)
    end.
Proof.
  intros Hshape Hloss. unfold_py. unfold shape0. rewrite Hshape, Hloss.
  destruct (negb (Nat.eqb (rank l) 0)); [reflexivity|].
  destruct (item l); reflexivity.
Qed.

(** C5.  Every [update] call, of every class, adds exactly 1 to
    [total_updates], whether it returns or raises; a call that raises, such
    as a [Loss.update] whose loss is not 0-dimensional, leaves the object
    with the counter one greater and nothing else changed. *)
Theorem update_counts_every_call v (a : args v) m :
  total_updates (fst (update v a m)) = total_updates m + 1 /\
  (forall e, snd (update v a m) = Raise e ->
             fst (update v a m) = set_total_updates (total_updates m + 1) m).
Proof.
  split.
  - apply update_step.
  - intros e. apply update_raise.
Qed.

Lemma update_counts_every_call_witness :
  fst (update (VLoss L1Loss_unreduced)
         (Batch (vec [1; 2]) (vec [1; 1]) []) MAE_init)
  = set_total_updates (total_updates MAE_init + 1) MAE_init.
Proof.
  apply (proj2 (update_counts_every_call (VLoss L1Loss_unreduced)
                  (Batch (vec [1; 2]) (vec [1; 1]) []) MAE_init) ShapeError).
  vm_compute. reflexivity.
Defined.

(** C6.  When [target] has a leading dimension and the loss function
    returns a tensor, [Loss.update] raises its shape error exactly when
    that tensor is not 0-dimensional; the failing call leaves [_sum] and
    [_num_examples] as they were and changes only [total_updates]. *)
Theorem Loss_update_shape_error f p t kw m l :
  shape t <> [] ->
  loss_call f p t kw = Ok l ->
  (snd (Loss_update f p t kw m) = Raise ShapeError <-> rank l <> 0%nat) /\
  (rank l <> 0%nat ->
   fst (Loss_update f p t kw m) = set_total_updates (total_updates m + 1) m /\
   _sum (fst (Loss_update f p t kw m)) = _sum m /\
   _num_examples (fst (Loss_update f p t kw m)) = _num_examples m).
Proof.
  intros Hshape Hloss.
  destruct (shape t) as [|n rest] eqn:Hs; [contradiction|].
  rewrite (Loss_update_run f p t kw m n rest l Hs Hloss).
  destruct (Nat.eqb_spec (rank l) 0) as [Hz|Hnz]; cbn [negb].
  - split; [|contradiction].
    split; [|contradiction].
    unfold item, rank in *.
    destruct (data l) as [|x [|y d]]; cbn; discriminate.
  - split; [tauto|]. intros _. repeat split.
Qed.

Lemma Loss_update_shape_error_witness :
  snd (Loss_update L1Loss_unreduced (vec [1; 2]) (vec [1; 1]) [] MAE_init)
  = Raise ShapeError.
Proof.
  apply (Loss_update_shape_error L1Loss_unreduced (vec [1; 2]) (vec [1; 1])
           [] MAE_init
           (result_or (scalar_tensor NaN)
              (loss_call L1Loss_unreduced (vec [1; 2]) (vec [1; 1]) []))).
  - discriminate.
  - vm_compute. reflexivity.
  - vm_compute. discriminate.
Defined.

(** C10.  The base [Metric.update] adds 1 to [total_updates], returns, and
    changes nothing else; the [update] of each concrete class adds exactly
    1 as well, so none of them also runs the base implementation. *)
Theorem Metric_update_counted_noop predicted target m :
  Metric_update predicted target m
    = (set_total_updates (total_updates m + 1) m, Ok tt) /\
  _sum (fst (Metric_update predicted target m)) = _sum m /\
  _num_examples (fst (Metric_update predicted target m)) = _num_examples m /\
  stored_values (fst (Metric_update predicted target m)) = stored_values m /\
  total_updates (fst (Metric_update predicted target m))
    = total_updates m + 1 /\
  (forall v (a : args v),
      total_updates (fst (update v a m)) = total_updates m + 1).
Proof.
  repeat split. intros v a. apply update_step.
Qed.

(* ===================================================================== *)
(** * Construction                                                        *)
(* ===================================================================== *)

(** C7, as stated, fails for [Loss]: the object built by
    [Loss(MSELoss())] is named ["MSELoss"], not ["Loss"]. *)
Lemma Loss_named_after_loss_fn :
  names_explicitly (NewLoss MSELoss) = false /\
  name (construct (NewLoss MSELoss)) = "MSELoss"%string /\
  name (construct (NewLoss MSELoss)) <> type_name (NewLoss MSELoss).
Proof. repeat split. discriminate. Qed.

(** C7, amended.  [Metric.__init__] without a name takes the name of the
    object's class; so every concrete class other than [Loss], constructed
    without an explicit name, is named after its own type.  A [Loss]
    object is named after the class of its loss function instead. *)
Theorem default_names c :
  (forall class_name : string,
      name (Metric_init class_name None) = class_name) /\
  (names_explicitly c = false ->
   name (construct c) =
     match c with
     | NewLoss loss_fn => loss_class_name loss_fn
     | _ => type_name c
     end).
Proof.
  split; [reflexivity|].
  destruct c as [| |f|[n|]]; cbn [names_explicitly]; intros H;
    (discriminate || reflexivity).
Qed.

Lemma default_names_witness :
  name (construct (NewValue None)) = type_name (NewValue None).
Proof.
  apply (proj2 (default_names (NewValue None))).
  reflexivity.
Defined.

(* ===================================================================== *)
(** * Signs                                                               *)
(* ===================================================================== *)

Lemma fold_add_nonneg l :
  Forall nonneg l -> forall acc, nonneg acc -> nonneg (fold_left add l acc).
Proof.
  induction 1 as [|x l Hx _ IH]; intros acc Hacc; cbn; [assumption|].
  apply IH. now apply nonneg_add.
Qed.

Lemma sum_list_nonneg l : Forall nonneg l -> nonneg (sum_list l).
Proof.
  intros Hl. apply fold_add_nonneg; [assumption|]. apply (nonneg_of_int 0). lia.
Qed.

Lemma mean_nonneg t x :
  Forall nonneg (data t) -> data t <> [] -> item (mean t) = Ok x -> nonneg x.
Proof.
  intros Hall Hne. unfold item, mean, scalar_tensor. cbn [data].
  intros [= <-]. destruct (data t) as [|y l] eqn:Hd; [contradiction|].
  apply nonneg_quotient; [now apply sum_list_nonneg | cbn; lia].
Qed.

Lemma is_real_sub x y : is_real x -> is_real y -> is_real (sub x y).
Proof. destruct x, y; cbn; tauto. Qed.

Lemma map_nonempty {A B} (f : A -> B) l : l <> [] -> map f l <> [].
Proof. destruct l; [congruence | discriminate]. Qed.

(** On non-empty real batches the reductions of [MAE] and [MSE] are not
    negative. *)
Lemma error_reduction_nonneg v (a : args v) r :
  is_error_metric v = true ->
  on_batch nonempty_real_tensor v a ->
  spec_reduction v a = Ok r ->
  nonneg r.
Proof.
  destruct v; try discriminate; intros _;
    destruct a as [p t]; cbn [on_batch spec_reduction fst snd];
    intros [[[Hwp Hrp] Hnp] [[Hwt Hrt] Hnt]]; unfold tsub;
    destruct (binop sub p t) as [d|e] eqn:Hd; cbn [and_then];
    try discriminate;
    pose proof (binop_real sub p t d is_real_sub Hwp Hwt Hrp Hrt Hd) as Hreal;
    pose proof (binop_nonempty sub p t d Hwp Hwt Hnp Hnt Hd) as Hne;
    apply mean_nonneg; cbn [data tabs tpow2];
    try (now apply map_nonempty);
    apply Forall_map; (eapply Forall_impl; [|exact Hreal]).
  - apply nonneg_abs.
  - apply nonneg_square.
Qed.

Lemma error_weight_pos v (a : args v) n :
  is_error_metric v = true ->
  on_batch nonempty_real_tensor v a ->
  spec_weight v a = Ok n ->
  0 < n.
Proof.
  destruct v; try discriminate; intros _;
    destruct a as [p t]; cbn [on_batch spec_weight fst snd];
    intros [_ [[Hwt _] Hnt]]; unfold shape0, wf in *;
    (destruct (shape t) as [|k rest]; cbn [map_result]; [discriminate|]);
    intros [= <-]; rewrite numel_of_cons in Hwt;
    (destruct (data t); [congruence | cbn in Hwt; nia]).
Qed.

(** One call keeps [_sum] and [_num_examples] from going negative, and a
    returning call makes [_num_examples] positive. *)
Lemma error_metric_step v (a : args v) m :
  is_error_metric v = true ->
  on_batch nonempty_real_tensor v a ->
  nonneg (_sum m) -> 0 <= _num_examples m ->
  nonneg (_sum (fst (update v a m))) /\
  0 <= _num_examples (fst (update v a m)) /\
  (snd (update v a m) = Ok tt -> 0 < _num_examples (fst (update v a m))) /\
  (0 < _num_examples m -> 0 < _num_examples (fst (update v a m))).
Proof.
  intros Hv Ha Hs Hn.
  pose proof (update_step v a m) as (_ & _ & _ & Hstep).
  destruct (snd (update v a m)) as [[]|e].
  - destruct Hstep as (r & n & [Hr Hw] & -> & ->). cbn [fst snd] in *.
    pose proof (error_reduction_nonneg v a r Hv Ha Hr).
    pose proof (error_weight_pos v a n Hv Ha Hw).
    repeat split; try lia.
    apply nonneg_add; [assumption|].
    apply nonneg_mul; [assumption | apply nonneg_of_int; lia].
  - destruct Hstep as [-> ->]. repeat split; auto; discriminate.
Qed.

Lemma after_updates_cons v (a : args v) rest m :
  after_updates v (a :: rest) m = after_updates v rest (fst (update v a m)).
Proof. reflexivity. Qed.

Lemma updates_cons v (a : args v) rest m :
  updates v (a :: rest) m =
  match update v a m with
  | (m1, Ok _) => updates v rest m1
  | (m1, Raise e) => (m1, Raise e)
  end.
Proof. reflexivity. Qed.

Lemma error_metric_invariant v (calls : list (args v)) :
  is_error_metric v = true ->
  Forall (on_batch nonempty_real_tensor v) calls ->
  forall m,
    nonneg (_sum m) -> 0 <= _num_examples m ->
    nonneg (_sum (after_updates v calls m)) /\
    0 <= _num_examples (after_updates v calls m) /\
    (snd (updates v calls m) = Ok tt ->
     0 < _num_examples m \/ calls <> [] ->
     0 < _num_examples (after_updates v calls m)).
Proof.
  intros Hv. induction 1 as [|a rest Ha _ IH]; intros m Hs Hn.
  - cbn. repeat split; try assumption. intros _ [Hpos|Hne]; congruence.
  - rewrite after_updates_cons, updates_cons.
    destruct (error_metric_step v a m Hv Ha Hs Hn) as (Hs1 & Hn1 & Hok & Hmono).
    destruct (IH (fst (update v a m)) Hs1 Hn1) as (Hs2 & Hn2 & Hpos).
    repeat split; try assumption.
    destruct (update v a m) as [m1 [[]|e]]; cbn [fst snd] in *;
      [|discriminate].
    intros Hrest _. apply Hpos; [assumption|]. left. now apply Hok.
Qed.

(** C8, as stated, fails: after an empty batch and then the batch [[5]]
    against [[0]], both of real numbers and both accepted by [MAE.update],
    [compute] returns NaN, which is not non-negative. *)
Lemma MAE_nan_after_empty_batch :
  Forall (on_batch real_tensor VMAE) empty_then_one /\
  snd (updates VMAE empty_then_one MAE_init) = Ok tt /\
  snd (compute false (after_updates VMAE empty_then_one MAE_init)) = Ok NaN /\
  ~ nonneg NaN.
Proof.
  split; [|split; [|split]].
  - repeat constructor.
  - reflexivity.
  - reflexivity.
  - exact (fun H => H).
Qed.

Lemma after_updates_app v (l1 l2 : list (args v)) m :
  after_updates v (l1 ++ l2) m = after_updates v l2 (after_updates v l1 m).
Proof. unfold after_updates. apply fold_left_app. Qed.

(** Once positive, [_num_examples] stays positive. *)
Lemma error_metric_positive v (calls : list (args v)) :
  is_error_metric v = true ->
  Forall (on_batch nonempty_real_tensor v) calls ->
  forall m,
    nonneg (_sum m) -> 0 < _num_examples m ->
    0 < _num_examples (after_updates v calls m).
Proof.
  intros Hv. induction 1 as [|a rest Ha _ IH]; intros m Hs Hn; [exact Hn|].
  rewrite after_updates_cons.
  destruct (error_metric_step v a m Hv Ha Hs) as (Hs1 & _ & _ & Hmono);
    [lia|].
  apply IH; [exact Hs1 | now apply Hmono].
Qed.

(** C8, amended.  For [MAE] and [MSE], started on an object whose [_sum]
    and [_num_examples] are not negative (such as a new or a reset one),
    after any run of [update] calls on well-formed tensors of real numbers
    that each hold at least one element: [_sum] and [_num_examples] are
    still not negative, every value [compute] returns is non-negative, and
    [compute] does return one as soon as one call of the run returned,
    whatever the other calls did. *)
Theorem error_metrics_nonneg v (calls : list (args v)) m save :
  is_error_metric v = true ->
  Forall (on_batch nonempty_real_tensor v) calls ->
  nonneg (_sum m) ->
  0 <= _num_examples m ->
  nonneg (_sum (after_updates v calls m)) /\
  0 <= _num_examples (after_updates v calls m) /\
  (forall x,
      snd (compute save (after_updates v calls m)) = Ok x -> nonneg x) /\
  (forall before a after,
      calls = before ++ a :: after ->
      snd (update v a (after_updates v before m)) = Ok tt ->
      exists x,
        snd (compute save (after_updates v calls m)) = Ok x /\ nonneg x).
Proof.
  intros Hv Hcalls Hs Hn.
  destruct (error_metric_invariant v calls Hv Hcalls m Hs Hn)
    as (Hs' & Hn' & _).
  assert (Hvalue : 0 < _num_examples (after_updates v calls m) ->
            nonneg (quotient (_sum (after_updates v calls m))
                      (_num_examples (after_updates v calls m))))
    by (now apply nonneg_quotient).
  split; [exact Hs' | split; [exact Hn' | split]].
  - intros x. rewrite compute_run.
    destruct (Z.eqb_spec (_num_examples (after_updates v calls m)) 0);
      cbn [snd]; [discriminate|].
    intros [= <-]. apply Hvalue. lia.
  - intros before a after Hsplit Hok.
    assert (Hpos : 0 < _num_examples (after_updates v calls m)).
    { subst calls. apply Forall_app in Hcalls. destruct Hcalls as [Hb Hrest].
      apply Forall_cons_iff in Hrest. destruct Hrest as [Ha Hafter].
      destruct (error_metric_invariant v before Hv Hb m Hs Hn)
        as (Hs1 & Hn1 & _).
      destruct (error_metric_step v a (after_updates v before m)
                  Hv Ha Hs1 Hn1) as (Hs2 & _ & Hret & _).
      rewrite after_updates_app, after_updates_cons.
      apply (error_metric_positive v after Hv Hafter); [exact Hs2|].
      now apply Hret. }
    exists (quotient (_sum (after_updates v calls m))
              (_num_examples (after_updates v calls m))).
    split; [|now apply Hvalue].
    rewrite compute_run.
    destruct (Z.eqb_spec (_num_examples (after_updates v calls m)) 0);
      [lia | reflexivity].
Qed.

Lemma error_metrics_nonneg_witness :
  exists x,
    snd (compute false (after_updates VMAE two_batches MAE_init)) = Ok x /\
    nonneg x.
Proof.
  refine (proj2 (proj2 (proj2
    (error_metrics_nonneg VMAE two_batches MAE_init false _ _ _ _)))
    [] (vec [1; 2; 3], vec [1; 1; 1]) [(vec [5], vec [0])] _ _).
  - reflexivity.
  - repeat constructor; discriminate.
  - vm_compute. discriminate.
  - vm_compute. discriminate.
  - reflexivity.
  - vm_compute. reflexivity.
Defined.

(* ===================================================================== *)
(** * The sign of the sample count                                        *)
(* ===================================================================== *)

(** C9, as stated, fails for [Value]: [update(avg_value, -1)] on a new
    object returns and leaves [_num_examples] at -1. *)
Lemma Value_negative_num :
  snd (update VValue (scalar_tensor (of_int 1), -1) (Value_init (Some "lr"%string))) = Ok tt /\
  _num_examples
    (fst (update VValue (scalar_tensor (of_int 1), -1) (Value_init (Some "lr"%string)))) = -1 /\
  ~ 0 <= _num_examples
          (after_updates VValue [(scalar_tensor (of_int 1), -1)]
             (Value_init (Some "lr"%string))).
Proof.
  split; [reflexivity | split; [reflexivity|]].
  vm_compute. intros H. apply H. reflexivity.
Qed.

Lemma weight_of_call_nonneg v (a : args v) n :
  weight_nonneg v a -> spec_weight v a = Ok n -> 0 <= n.
Proof.
  assert (Hshape : forall t, map_result Z.of_nat (shape0 t) = Ok n -> 0 <= n).
  { intros t. unfold shape0. destruct (shape t); cbn [map_result];
      [discriminate | intros [= <-]; lia]. }
  destruct v; cbn [weight_nonneg spec_weight]; intros Hw.
  - apply Hshape.
  - apply Hshape.
  - destruct a as [p t kw]. apply Hshape.
  - intros [= <-]. exact Hw.
Qed.

(** C9, amended.  [_num_examples] is 0 on a new object and after [reset];
    it stays non-negative across any run of [update] calls of [MAE], [MSE]
    and [Loss], and across [Value.update] calls whose [num] is not
    negative. *)
Theorem sample_count_nonneg v (calls : list (args v)) m :
  (forall c, _num_examples (construct c) = 0) /\
  _num_examples (fst (reset m)) = 0 /\
  (0 <= _num_examples m ->
   Forall (weight_nonneg v) calls ->
   0 <= _num_examples (after_updates v calls m)).
Proof.
  split; [intros []; reflexivity | split; [reflexivity|]].
  intros Hn Hcalls. revert m Hn.
  induction Hcalls as [|a rest Ha _ IH]; intros m Hn; [exact Hn|].
  rewrite after_updates_cons. apply IH.
  pose proof (update_step v a m) as (_ & _ & _ & Hstep).
  destruct (snd (update v a m)) as [[]|e].
  - destruct Hstep as (r & n & [_ Hw] & _ & ->). cbn [snd] in Hw.
    pose proof (weight_of_call_nonneg v a n Ha Hw). lia.
  - destruct Hstep as [_ ->]. exact Hn.
Qed.

Lemma sample_count_nonneg_witness :
  0 <= _num_examples
         (after_updates VValue
            [(scalar_tensor (of_int 1), 10); (scalar_tensor (of_int 2), 10)]
            (Value_init (Some "lr"%string))).
Proof.
  apply (proj2 (proj2 (sample_count_nonneg VValue
           [(scalar_tensor (of_int 1), 10); (scalar_tensor (of_int 2), 10)]
           (Value_init (Some "lr"%string))))).
  - vm_compute. discriminate.
  - repeat constructor; vm_compute; discriminate.
Defined.

(* ===================================================================== *)
(** * update in closed form                                             *)
(* ===================================================================== *)

(** [update]: what it writes and what it returns, from [batch_effect]. *)
Lemma update_run v (a : args v) m :
  update v a m =
  match batch_effect v a with
  | Ok (r, n) =>
      (mkMetric (name m) (add (_sum m) (mul r (of_int n)))
         (_num_examples m + n) (stored_values m) (total_updates m + 1),
       Ok tt)
  | Raise e => (set_total_updates (total_updates m + 1) m, Raise e)
  end.
Proof.
  destruct v; [ destruct a as [p t] | destruct a as [p t]
              | destruct a as [p t kw] | destruct a as [t num] ];
    unfold update, batch_effect; cbn [fst snd]; unfold_py.
  - destruct (shape0 t) as [n|e]; cbn; [|reflexivity].
    destruct (tsub p t) as [d|e]; reflexivity.
  - destruct (shape0 t) as [n|e]; cbn; [|reflexivity].
    destruct (tsub p t) as [d|e]; reflexivity.
  - destruct (shape0 t) as [n|e]; cbn; [|reflexivity].
    destruct (loss_call _loss_fn p t kw) as [l|e]; cbn; [|reflexivity].
    destruct (Nat.eqb (rank l) 0); cbn; [|reflexivity].
    destruct (item l) as [x|e]; reflexivity.
  - unfold detach. destruct (item t) as [x|e]; reflexivity.
Qed.


(* ===================================================================== *)
(** * Sequences of calls                                                *)
(* ===================================================================== *)

Lemma run_op_frame v (o : op v) m :
  name (fst (run_op v o m)) = name m /\
  total_updates (fst (run_op v o m))
    = total_updates m + (if is_update o then 1 else 0) /\
  stored_values (fst (run_op v o m))
    = stored_values m ++ saved [o] [snd (run_op v o m)].
Proof.
  destruct o as [|a|save|]; unfold run_op, bind, ret;
    rewrite ?str_run, ?compute_run, ?update_run; cbn [is_update saved].
  - cbn. rewrite app_nil_r. repeat split; lia.
  - destruct (batch_effect v a) as [[r n]|e]; cbn; rewrite app_nil_r; auto.
  - destruct (_num_examples m =? 0), save; cbn; rewrite ?app_nil_r;
      repeat split; lia.
  - destruct (_num_examples m =? 0); cbn; rewrite app_nil_r;
      repeat split; lia.
Qed.

Lemma run_ops_cons v (o : op v) rest m :
  run_ops v (o :: rest) m =
  (fst (run_ops v rest (fst (run_op v o m))),
   snd (run_op v o m) :: snd (run_ops v rest (fst (run_op v o m)))).
Proof.
  cbn [run_ops]. destruct (run_op v o m) as [m1 r]. cbn [fst snd].
  destruct (run_ops v rest m1) as [m2 rs]. reflexivity.
Qed.

(** X1.  Over any sequence of [reset], [update], [compute] and [__str__]
    calls, [total_updates] grows by exactly the number of [update] calls:
    it counts the raising ones too, and no call ever lowers or resets it. *)
Theorem total_updates_counts_updates v (ops : list (op v)) m :
  total_updates (fst (run_ops v ops m))
  = total_updates m + Z.of_nat (count_updates ops).
Proof.
  revert m. induction ops as [|o rest IH]; intros m.
  - cbn. lia.
  - rewrite run_ops_cons. cbn [fst]. rewrite IH.
    destruct (run_op_frame v o m) as (_ & -> & _).
    unfold count_updates. cbn [filter].
    destruct (is_update o); cbn [List.length]; lia.
Qed.

(** X2.  Over any sequence of calls the name never changes and
    [stored_values] only grows at its end: it is the old history followed
    by the values the [compute(save=True)] calls returned, in order. *)
Theorem history_is_append_only v (ops : list (op v)) m :
  name (fst (run_ops v ops m)) = name m /\
  stored_values (fst (run_ops v ops m))
  = stored_values m ++ saved ops (snd (run_ops v ops m)).
Proof.
  revert m. induction ops as [|o rest IH]; intros m.
  - cbn. now rewrite app_nil_r.
  - rewrite run_ops_cons. cbn [fst snd].
    destruct (IH (fst (run_op v o m))) as [-> ->].
    destruct (run_op_frame v o m) as (-> & _ & ->).
    split; [reflexivity|]. rewrite <- app_assoc. f_equal.
    destruct o as [|a|[|]|]; cbn [saved app]; try reflexivity.
    destruct (snd (run_op v (OpCompute true) m)) as [[|x|s]|e]; reflexivity.
Qed.

Lemma after_updates_depends_on_sum_and_count v (calls : list (args v)) :
  forall m1 m2,
    _sum m1 = _sum m2 -> _num_examples m1 = _num_examples m2 ->
    _sum (after_updates v calls m1) = _sum (after_updates v calls m2) /\
    _num_examples (after_updates v calls m1)
      = _num_examples (after_updates v calls m2).
Proof.
  induction calls as [|a rest IH]; intros m1 m2 Hs Hn; [now split|].
  rewrite !after_updates_cons. apply IH; rewrite !update_run;
    destruct (batch_effect v a) as [[r n]|e]; cbn; congruence.
Qed.

(** X3.  After [reset], what the object accumulated before does not
    matter: two objects with any past, reset and given the same [update]
    calls, hold the same [_sum] and [_num_examples], and [compute] returns
    the same value on both, or raises on both. *)
Theorem reset_isolates_epochs v (calls : list (args v)) m1 m2 save :
  _sum (after_updates v calls (fst (reset m1)))
    = _sum (after_updates v calls (fst (reset m2))) /\
  _num_examples (after_updates v calls (fst (reset m1)))
    = _num_examples (after_updates v calls (fst (reset m2))) /\
  (forall x,
      snd (compute save (after_updates v calls (fst (reset m1)))) = Ok x <->
      snd (compute save (after_updates v calls (fst (reset m2)))) = Ok x).
Proof.
  destruct (after_updates_depends_on_sum_and_count v calls
              (fst (reset m1)) (fst (reset m2)) eq_refl eq_refl) as [Hs Hn].
  split; [exact Hs | split; [exact Hn|]].
  intros x. rewrite !compute_run, Hs, Hn.
  destruct (_num_examples (after_updates v calls (fst (reset m2))) =? 0);
    cbn [snd]; [split; discriminate | reflexivity].
Qed.

(** X4.  [compute] does not consume what was accumulated: after a
    [compute], a second one has the same outcome; on an object with
    samples two [compute(save=True)] calls append the same value twice. *)
Theorem compute_is_repeatable m save1 save2 :
  snd (compute save2 (fst (compute save1 m))) = snd (compute save2 m) /\
  (_num_examples m <> 0 ->
   stored_values (fst (compute true (fst (compute true m))))
   = stored_values m ++ [quotient (_sum m) (_num_examples m);
                         quotient (_sum m) (_num_examples m)]).
Proof.
  split.
  - rewrite !compute_run.
    destruct (_num_examples m =? 0) eqn:E, save1; cbn [fst snd];
      cbn [_num_examples set_stored_values _sum name]; rewrite ?E; reflexivity.
  - intros Hnz. rewrite !compute_run.
    destruct (Z.eqb_spec (_num_examples m) 0) as [Hz|Hn]; [contradiction|].
    cbn [fst]. cbn [_num_examples set_stored_values _sum].
    destruct (Z.eqb_spec (_num_examples m) 0) as [Hz|_]; [contradiction|].
    cbn. now rewrite <- app_assoc.
Qed.

Lemma compute_is_repeatable_witness :
  stored_values (fst (compute true (fst (compute true eight_over_four))))
  = stored_values eight_over_four
    ++ [quotient (_sum eight_over_four) (_num_examples eight_over_four);
        quotient (_sum eight_over_four) (_num_examples eight_over_four)].
Proof.
  apply (proj2 (compute_is_repeatable eight_over_four true true)).
  vm_compute. discriminate.
Defined.

(* ===================================================================== *)
(** * Outcomes of update                                                *)
(* ===================================================================== *)

(** X5.  [MAE.update] and [MSE.update] read [target.shape[0]] before they
    subtract: a 0-dimensional [target] raises [IndexError] whatever
    [predicted] is; when [target] has a leading dimension and the two
    shapes do not broadcast, both raise the same [RuntimeError].  Either
    way the object has only its counter moved. *)
Theorem error_metric_update_failures p t m :
  (shape t = [] ->
   MAE_update p t m
   = (set_total_updates (total_updates m + 1) m,
      Raise (IndexError ["tuple index out of range"%string])) /\
   MSE_update p t m = MAE_update p t m) /\
  (shape t <> [] ->
   broadcast_shapes (shape p) (shape t) = None ->
   exists args,
     MAE_update p t m
     = (set_total_updates (total_updates m + 1) m,
        Raise (RuntimeError args)) /\
     MSE_update p t m = MAE_update p t m).
Proof.
  change (MAE_update p t m) with (update VMAE (p, t) m).
  change (MSE_update p t m) with (update VMSE (p, t) m).
  rewrite !update_run. cbn [batch_effect fst snd].
  unfold shape0, tsub, binop. split.
  - intros ->. split; reflexivity.
  - intros Hs Hb. destruct (shape t) as [|n rest]; [contradiction|].
    rewrite Hb. cbn [and_then map_result]. eexists. split; reflexivity.
Qed.

Lemma error_metric_update_failures_witness :
  exists args,
    MAE_update (vec [1; 2]) (vec [1; 2; 3]) MAE_init
    = (set_total_updates (total_updates MAE_init + 1) MAE_init,
       Raise (RuntimeError args)) /\
    MSE_update (vec [1; 2]) (vec [1; 2; 3]) MAE_init
    = MAE_update (vec [1; 2]) (vec [1; 2; 3]) MAE_init.
Proof.
  apply (proj2 (error_metric_update_failures (vec [1; 2]) (vec [1; 2; 3])
                  MAE_init)).
  - discriminate.
  - reflexivity.
Defined.

(** X6.  [Loss.update] reads [target.shape[0]] before it calls the loss
    function, so a 0-dimensional [target] raises [IndexError] whatever the
    loss function is; an exception raised by the loss function leaves
    [update] unchanged, and the object has only its counter moved. *)
Theorem Loss_update_propagates f p t kw m :
  (shape t = [] ->
   Loss_update f p t kw m
   = (set_total_updates (total_updates m + 1) m,
      Raise (IndexError ["tuple index out of range"%string]))) /\
  (forall e,
      shape t <> [] ->
      loss_call f p t kw = Raise e ->
      Loss_update f p t kw m
      = (set_total_updates (total_updates m + 1) m, Raise e)).
Proof.
  change (Loss_update f p t kw m) with (update (VLoss f) (Batch p t kw) m).
  rewrite update_run. cbn [batch_effect]. unfold shape0. split.
  - intros ->. reflexivity.
  - intros e Hs He. destruct (shape t); [contradiction|].
    cbn [and_then]. rewrite He. reflexivity.
Qed.

Lemma Loss_update_propagates_witness :
  Loss_update MSELoss (vec [1; 2]) (vec [1; 2; 3]) [] MAE_init
  = (set_total_updates (total_updates MAE_init + 1) MAE_init,
     Raise (RuntimeError
       ["The size of tensor a (2) must match the size of tensor b (3) at non-singleton dimension 0"%string])).
Proof.
  apply (proj2 (Loss_update_propagates MSELoss (vec [1; 2]) (vec [1; 2; 3])
                  [] MAE_init)).
  - discriminate.
  - reflexivity.
Defined.

(** X7.  A [Loss] metric whose loss function returns the mean squared
    error of the batch as a 0-dimensional tensor does exactly what the
    [MSE] metric does, on every input, and likewise for the mean absolute
    error and [MAE]. *)
Theorem Loss_with_mean_loss_is_the_metric f :
  ((forall p t kw,
       loss_call f p t kw
       = map_result (fun d => mean (tpow2 d)) (tsub p t)) ->
   forall p t kw m, Loss_update f p t kw m = MSE_update p t m) /\
  ((forall p t kw,
       loss_call f p t kw
       = map_result (fun d => mean (tabs d)) (tsub p t)) ->
   forall p t kw m, Loss_update f p t kw m = MAE_update p t m).
Proof.
  split; intros Hf p t kw m;
    change (Loss_update f p t kw m) with (update (VLoss f) (Batch p t kw) m);
    [ change (MSE_update p t m) with (update VMSE (p, t) m)
    | change (MAE_update p t m) with (update VMAE (p, t) m) ];
    rewrite !update_run; cbn [batch_effect fst snd]; rewrite Hf;
    destruct (shape0 t) as [n|e]; cbn [and_then]; try reflexivity;
    destruct (tsub p t) as [d|e]; reflexivity.
Qed.

Lemma Loss_with_mean_loss_is_the_metric_witness :
  Loss_update MSELoss (vec [1; 2; 3]) (vec [1; 1; 1]) [] MAE_init
  = MSE_update (vec [1; 2; 3]) (vec [1; 1; 1]) MAE_init.
Proof.
  apply (proj1 (Loss_with_mean_loss_is_the_metric MSELoss)).
  reflexivity.
Defined.

(* ===================================================================== *)
(** * Symmetry                                                          *)
(* ===================================================================== *)

Lemma abs_sub_sym x y : abs (sub x y) = abs (sub y x).
Proof.
  destruct x, y; cbn; try reflexivity. f_equal. apply Qcabs_Qcminus.
Qed.

Lemma square_sub_sym x y : square (sub x y) = square (sub y x).
Proof.
  destruct x, y; cbn; try reflexivity. f_equal. ring.
Qed.

Lemma broadcast_shapes_sym a b : broadcast_shapes a b = broadcast_shapes b a.
Proof. unfold broadcast_shapes. now rewrite broadcast_rev_sym. Qed.

Lemma map_binop_flip (g : scalar -> scalar) (h : Tensor -> Tensor) p t :
  (forall d, h d = mkTensor (shape d) (map g (data d))) ->
  (forall x y, g (sub x y) = g (sub y x)) ->
  match tsub p t, tsub t p with
  | Ok d, Ok d' => h d = h d'
  | Raise _, Raise _ => True
  | _, _ => False
  end.
Proof.
  intros Hh Hg. unfold tsub, binop.
  rewrite (broadcast_shapes_sym (shape t) (shape p)).
  destruct (broadcast_shapes (shape p) (shape t)) as [s|]; [|exact I].
  rewrite !Hh. cbn [shape data]. rewrite !map_map.
  f_equal. apply map_ext. intros idx. apply Hg.
Qed.

(** Swapping the arguments of the update of class [v], given that the
    swap does not change the error tensor up to [h]. *)
Lemma update_flip v (h : Tensor -> Tensor) p t m
      (pt tp : args v) :
  batch_effect v pt
  = and_then (shape0 t) (fun num =>
    and_then (map_result h (tsub p t)) (fun e =>
    and_then (item (mean e)) (fun r => Ok (r, Z.of_nat num)))) ->
  batch_effect v tp
  = and_then (shape0 p) (fun num =>
    and_then (map_result h (tsub t p)) (fun e =>
    and_then (item (mean e)) (fun r => Ok (r, Z.of_nat num)))) ->
  match tsub p t, tsub t p with
  | Ok d, Ok d' => h d = h d'
  | Raise _, Raise _ => True
  | _, _ => False
  end ->
  shape0 p = shape0 t ->
  fst (update v pt m) = fst (update v tp m) /\
  (snd (update v pt m) = Ok tt <-> snd (update v tp m) = Ok tt).
Proof.
  intros Hpt Htp Hflip H0. rewrite !update_run, Hpt, Htp, H0.
  destruct (shape0 t) as [n|e]; cbn [and_then]; [|split; reflexivity].
  destruct (tsub p t) as [d|e1], (tsub t p) as [d'|e2];
    cbn [map_result and_then]; try contradiction.
  - rewrite Hflip. split; reflexivity.
  - cbn [fst snd]. split; [reflexivity | split; discriminate].
Qed.

(** X8.  The reductions of [MAE] and [MSE] do not depend on which tensor
    is [predicted] and which is [target]: each returns a value one way
    round exactly when it returns that value the other way round.  When
    the two tensors have the same leading dimension, swapping them leaves
    the same object behind, and both calls return or both raise (on
    shapes that do not broadcast, the error names the sizes in the order
    given). *)
Theorem error_metrics_symmetric p t :
  (forall r, spec_reduction VMAE (p, t) = Ok r <->
             spec_reduction VMAE (t, p) = Ok r) /\
  (forall r, spec_reduction VMSE (p, t) = Ok r <->
             spec_reduction VMSE (t, p) = Ok r) /\
  (shape0 p = shape0 t ->
   forall m,
     (fst (MAE_update p t m) = fst (MAE_update t p m) /\
      (snd (MAE_update p t m) = Ok tt <-> snd (MAE_update t p m) = Ok tt)) /\
     (fst (MSE_update p t m) = fst (MSE_update t p m) /\
      (snd (MSE_update p t m) = Ok tt <-> snd (MSE_update t p m) = Ok tt))).
Proof.
  pose proof (map_binop_flip abs tabs p t (fun d => eq_refl) abs_sub_sym) as Ha.
  pose proof (map_binop_flip square tpow2 p t (fun d => eq_refl) square_sub_sym)
    as Hs.
  assert (Hred : forall h : Tensor -> Tensor,
             match tsub p t, tsub t p with
             | Ok d, Ok d' => h d = h d'
             | Raise _, Raise _ => True
             | _, _ => False
             end ->
             forall r,
               and_then (tsub p t) (fun d => item (mean (h d))) = Ok r <->
               and_then (tsub t p) (fun d => item (mean (h d))) = Ok r).
  { intros h Hh r.
    destruct (tsub p t) as [d1|e1], (tsub t p) as [d2|e2];
      cbn [and_then]; try contradiction.
    - rewrite Hh. reflexivity.
    - split; discriminate. }
  split; [exact (Hred tabs Ha) | split; [exact (Hred tpow2 Hs)|]].
  intros H0 m. split.
  - exact (update_flip VMAE tabs p t m (p, t) (t, p) eq_refl eq_refl Ha H0).
  - exact (update_flip VMSE tpow2 p t m (p, t) (t, p) eq_refl eq_refl Hs H0).
Qed.

Lemma error_metrics_symmetric_witness :
  fst (MAE_update (vec [1; 2; 3]) (vec [1; 1; 1]) MAE_init)
  = fst (MAE_update (vec [1; 1; 1]) (vec [1; 2; 3]) MAE_init) /\
  (snd (MAE_update (vec [1; 2; 3]) (vec [1; 1; 1]) MAE_init) = Ok tt <->
   snd (MAE_update (vec [1; 1; 1]) (vec [1; 2; 3]) MAE_init) = Ok tt).
Proof.
  apply (proj2 (proj2 (error_metrics_symmetric (vec [1; 2; 3])
                         (vec [1; 1; 1]))) eq_refl MAE_init).
Defined.

(* ===================================================================== *)
(** * NaN and empty batches                                             *)
(* ===================================================================== *)

(** X9.  Once [_sum] is NaN it stays NaN through every later [update],
    of any class and whether it returns or raises, and every value
    [compute] returns is NaN; only [reset] clears it. *)
Theorem nan_sum_is_absorbing v (calls : list (args v)) m :
  _sum m = NaN ->
  _sum (after_updates v calls m) = NaN /\
  (forall save x,
      snd (compute save (after_updates v calls m)) = Ok x -> x = NaN).
Proof.
  intros Hnan.
  assert (H : _sum (after_updates v calls m) = NaN).
  { revert m Hnan. induction calls as [|a rest IH]; intros m Hnan;
      [exact Hnan|].
    rewrite after_updates_cons. apply IH. rewrite update_run.
    destruct (batch_effect v a) as [[r n]|e]; cbn; [|exact Hnan].
    now rewrite Hnan. }
  split; [exact H|]. intros save x. rewrite compute_run, H.
  destruct (_num_examples (after_updates v calls m) =? 0); cbn [snd];
    [discriminate | now intros [= <-]].
Qed.

Lemma nan_sum_is_absorbing_witness :
  _sum (after_updates VMAE two_batches after_empty_batch) = NaN.
Proof.
  apply (proj1 (nan_sum_is_absorbing VMAE two_batches after_empty_batch
                  eq_refl)).
Defined.

Lemma broadcast_dim_zero x y d :
  broadcast_dim x y = Some d -> x = 0%nat \/ y = 0%nat -> d = 0%nat.
Proof.
  unfold broadcast_dim.
  destruct (Nat.eqb_spec x y), (Nat.eqb_spec x 1), (Nat.eqb_spec y 1);
    intros [= <-]; lia.
Qed.

Lemma broadcast_rev_zero a :
  forall b r,
    broadcast_rev a b = Some r ->
    numel_of a = 0%nat \/ numel_of b = 0%nat -> numel_of r = 0%nat.
Proof.
  induction a as [|x a IH]; intros b r Hb Hz.
  - cbn in Hb. injection Hb as <-.
    change (numel_of []) with 1%nat in Hz. lia.
  - destruct b as [|y b]; cbn [broadcast_rev] in Hb.
    + injection Hb as <-. change (numel_of []) with 1%nat in Hz. lia.
    + destruct (broadcast_dim x y) as [d|] eqn:Hd; [|discriminate].
      destruct (broadcast_rev a b) as [r'|] eqn:Hr; [|discriminate].
      injection Hb as <-. rewrite !numel_of_cons in *.
      destruct (Nat.eq_dec x 0) as [Hx|Hx];
        [rewrite (broadcast_dim_zero x y d Hd (or_introl Hx)); lia|].
      destruct (Nat.eq_dec y 0) as [Hy|Hy];
        [rewrite (broadcast_dim_zero x y d Hd (or_intror Hy)); lia|].
      rewrite (IH b r' Hr); [lia | nia].
Qed.

Lemma binop_empty f a b d :
  wf a -> wf b -> data a = [] \/ data b = [] ->
  binop f a b = Ok d ->
  data d = [].
Proof.
  intros Hwa Hwb Hempty. unfold binop, broadcast_shapes.
  destruct (broadcast_rev (rev (shape a)) (rev (shape b))) as [r|] eqn:Hr;
    cbn [option_map]; [|discriminate].
  intros [= <-]. cbn [data].
  apply length_zero_iff_nil.
  rewrite length_map, length_indices, numel_of_rev.
  apply (broadcast_rev_zero _ _ r Hr). rewrite !numel_of_rev.
  unfold wf in *. destruct Hempty as [E|E]; [left; rewrite <- Hwa | right; rewrite <- Hwb];
    now rewrite E.
Qed.

(** X10.  [MAE.update] and [MSE.update] do not reject an empty batch: when
    one of the two well-formed tensors has no element, [target] has a
    leading dimension and the shapes broadcast, the call returns and
    leaves [_sum] at NaN. *)
Theorem empty_batch_poisons_sum p t m :
  wf p -> wf t ->
  data p = [] \/ data t = [] ->
  shape t <> [] ->
  broadcast_shapes (shape p) (shape t) <> None ->
  (snd (MAE_update p t m) = Ok tt /\ _sum (fst (MAE_update p t m)) = NaN) /\
  (snd (MSE_update p t m) = Ok tt /\ _sum (fst (MSE_update p t m)) = NaN).
Proof.
  intros Hwp Hwt Hempty Hshape Hbc.
  change (MAE_update p t m) with (update VMAE (p, t) m).
  change (MSE_update p t m) with (update VMSE (p, t) m).
  rewrite !update_run. cbn [batch_effect fst snd]. unfold shape0.
  destruct (shape t) as [|n rest] eqn:Hs; [contradiction|]. cbn [and_then].
  destruct (tsub p t) as [d|e] eqn:Hd.
  - pose proof (binop_empty sub p t d Hwp Hwt Hempty Hd) as Hnil.
    cbn [map_result and_then]. unfold item, mean, tabs, tpow2.
    cbn [data scalar_tensor]. rewrite Hnil. cbn.
    destruct (_sum m); repeat split.
  - exfalso. unfold tsub, binop in Hd. rewrite ?Hs in Hd.
    destruct (broadcast_shapes (shape p) (n :: rest));
      [discriminate | now apply Hbc].
Qed.

Lemma empty_batch_poisons_sum_witness :
  (snd (MAE_update (vec []) (vec []) MAE_init) = Ok tt /\
   _sum (fst (MAE_update (vec []) (vec []) MAE_init)) = NaN) /\
  (snd (MSE_update (vec []) (vec []) MAE_init) = Ok tt /\
   _sum (fst (MSE_update (vec []) (vec []) MAE_init)) = NaN).
Proof.
  apply (empty_batch_poisons_sum (vec []) (vec []) MAE_init).
  - reflexivity.
  - reflexivity.
  - left. reflexivity.
  - discriminate.
  - vm_compute. discriminate.
Defined.

(* ===================================================================== *)
(** * Perfect predictions                                               *)
(* ===================================================================== *)

Lemma broadcast_dim_self x : broadcast_dim x x = Some x.
Proof. unfold broadcast_dim. now rewrite Nat.eqb_refl. Qed.

Lemma broadcast_rev_self a : broadcast_rev a a = Some a.
Proof.
  induction a as [|x a IH]; cbn; [reflexivity|].
  now rewrite broadcast_dim_self, IH.
Qed.

Lemma broadcast_shapes_self s : broadcast_shapes s s = Some s.
Proof.
  unfold broadcast_shapes. rewrite broadcast_rev_self. cbn.
  now rewrite rev_involutive.
Qed.







(* ===================================================================== *)
(** * Batches of one shape                                              *)
(* ===================================================================== *)

Lemma offset_rev_snoc a :
  forall x d i,
    List.length a = List.length x ->
    offset_rev (a ++ [d]) (x ++ [i])
    = (offset_rev a x + numel_of a * (if (d =? 1)%nat then 0 else i))%nat.
Proof.
  induction a as [|y a IH]; intros [|j x] d i Hlen; try discriminate.
  - cbn. lia.
  - cbn [app offset_rev]. rewrite numel_of_cons, IH by (cbn in Hlen; lia).
    destruct (y =? 1)%nat; nia.
Qed.

Lemma map_add_seq c n : map (fun k => (k + c)%nat) (seq 0 n) = seq c n.
Proof.
  revert c. induction n as [|n IH]; intros c; [reflexivity|].
  cbn [seq map]. f_equal. rewrite <- seq_shift, map_map.
  rewrite <- (IH (S c)). apply map_ext. intros k. lia.
Qed.

Lemma flat_map_seq_blocks n d :
  flat_map (fun i => seq (n * i) n) (seq 0 d) = seq 0 (d * n).
Proof.
  induction d as [|d IH]; [reflexivity|].
  rewrite seq_S, flat_map_app, IH. cbn [flat_map]. rewrite app_nil_r.
  replace (S d * n)%nat with (d * n + n)%nat by lia.
  rewrite seq_app. do 2 f_equal. lia.
Qed.

Lemma flat_map_ext_in' {A B} (f g : A -> list B) l :
  (forall a, In a l -> f a = g a) -> flat_map f l = flat_map g l.
Proof.
  induction l as [|x l IH]; intros H; [reflexivity|]. cbn.
  rewrite (H x (or_introl eq_refl)), IH; [reflexivity|].
  intros a Ha. apply H. now right.
Qed.

Lemma offsets_of_indices s :
  map (fun idx => offset_rev (rev s) (rev idx)) (indices s)
  = seq 0 (numel_of s).
Proof.
  induction s as [|d s IH]; [reflexivity|].
  cbn [indices]. rewrite numel_of_cons, <- flat_map_seq_blocks.
  rewrite flat_map_concat_map, concat_map, map_map, <- flat_map_concat_map.
  apply flat_map_ext_in'. intros i Hi. apply in_seq in Hi.
  rewrite map_map. rewrite <- (map_add_seq (numel_of s * i) (numel_of s)).
  rewrite <- IH, map_map. apply map_ext_in. intros idx Hin.
  apply in_indices, Forall2_length in Hin.
  cbn [rev]. rewrite offset_rev_snoc by (now rewrite !length_rev).
  rewrite numel_of_rev. destruct (Nat.eqb_spec d 1); [|reflexivity].
  replace i with 0%nat by lia. reflexivity.
Qed.

Lemma map_nth_seq {A} (l : list A) d :
  map (fun k => nth k l d) (seq 0 (List.length l)) = l.
Proof.
  induction l as [|x l IH]; [reflexivity|].
  cbn [List.length seq map nth]. f_equal.
  rewrite <- seq_shift, map_map. exact IH.
Qed.

Lemma map_get_indices t : wf t -> map (get t) (indices (shape t)) = data t.
Proof.
  intros Hw. unfold get.
  rewrite <- (map_map (fun idx => offset_rev (rev (shape t)) (rev idx))
                      (fun k => nth k (data t) NaN)).
  rewrite offsets_of_indices, <- Hw. apply map_nth_seq.
Qed.

Lemma map_combine_maps {A B C D} (f : B -> C -> D) (g : A -> B) (h : A -> C) l :
  map (fun x => f (g x) (h x)) l
  = map (fun bc => f (fst bc) (snd bc)) (combine (map g l) (map h l)).
Proof. induction l as [|x l IH]; cbn; [reflexivity | now rewrite IH]. Qed.

Lemma binop_same_shape f a b :
  wf a -> wf b -> shape a = shape b ->
  binop f a b
  = Ok (mkTensor (shape a)
          (map (fun xy => f (fst xy) (snd xy)) (combine (data a) (data b)))).
Proof.
  intros Hwa Hwb Hs. unfold binop. rewrite <- Hs, broadcast_shapes_self.
  rewrite (map_combine_maps f (get a) (get b)).
  rewrite (map_get_indices a Hwa).
  pose proof (map_get_indices b Hwb) as Hb. rewrite <- Hs in Hb.
  now rewrite Hb.
Qed.

Lemma same_shape_reduction (g : scalar -> scalar) (h : Tensor -> Tensor) p t :
  (forall d, h d = mkTensor (shape d) (map g (data d))) ->
  wf p -> wf t -> shape p = shape t -> data t <> [] ->
  and_then (tsub p t) (fun d => item (mean (h d)))
  = Ok (quotient (sum_list (errors g p t))
          (Z.of_nat (List.length (data t)))).
Proof.
  intros Hh Hwp Hwt Hs Hne. unfold tsub.
  rewrite (binop_same_shape sub p t Hwp Hwt Hs). cbn [and_then].
  rewrite Hh. cbn [data shape]. rewrite map_map.
  fold (errors g p t). unfold item, mean, scalar_tensor. cbn [data].
  assert (Hlen : List.length (errors g p t) = List.length (data t)).
  { unfold errors. rewrite length_map, length_combine.
    unfold wf in *. rewrite Hwp, Hwt, Hs. apply Nat.min_id. }
  destruct (errors g p t) as [|e es] eqn:He.
  - destruct (data t); [congruence | discriminate].
  - cbn iota. rewrite Hlen. reflexivity.
Qed.

(** X12.  When [predicted] and [target] are well-formed, of the same
    shape and not empty, nothing is broadcast: the reduction of [MAE] is
    the sum of [|p_i - t_i|] over all elements divided by their number,
    and that of [MSE] the same with [(p_i - t_i)^2]. *)
Theorem same_shape_batches_are_elementwise p t :
  wf p -> wf t -> shape p = shape t -> data t <> [] ->
  spec_reduction VMAE (p, t)
  = Ok (quotient
          (sum_list (map (fun xy => abs (sub (fst xy) (snd xy)))
                       (combine (data p) (data t))))
          (Z.of_nat (List.length (data t)))) /\
  spec_reduction VMSE (p, t)
  = Ok (quotient
          (sum_list (map (fun xy => square (sub (fst xy) (snd xy)))
                       (combine (data p) (data t))))
          (Z.of_nat (List.length (data t)))).
Proof.
  intros Hwp Hwt Hs Hne. split.
  - exact (same_shape_reduction abs tabs p t (fun d => eq_refl) Hwp Hwt Hs Hne).
  - exact (same_shape_reduction square tpow2 p t (fun d => eq_refl)
             Hwp Hwt Hs Hne).
Qed.

Lemma same_shape_batches_are_elementwise_witness :
  spec_reduction VMAE (vec [1; 2; 3], vec [1; 1; 1])
  = Ok (quotient
          (sum_list (map (fun xy => abs (sub (fst xy) (snd xy)))
                       (combine (data (vec [1; 2; 3]))
                          (data (vec [1; 1; 1])))))
          (Z.of_nat (List.length (data (vec [1; 1; 1]))))).
Proof.
  apply (same_shape_batches_are_elementwise (vec [1; 2; 3]) (vec [1; 1; 1])).
  - reflexivity.
  - reflexivity.
  - reflexivity.
  - discriminate.
Defined.










(* ===================================================================== *)
(** * Rendering                                                         *)
(* ===================================================================== *)

Lemma string_length_app s1 s2 :
  String.length (s1 ++ s2)%string = (String.length s1 + String.length s2)%nat.
Proof. induction s1 as [|c s1 IH]; cbn; [reflexivity | now rewrite IH]. Qed.

Lemma length_spaces n : String.length (spaces n) = n.
Proof. induction n as [|n IH]; cbn; [reflexivity | now rewrite IH]. Qed.

Lemma length_format_8_3f x : (8 <= String.length (format_8_3f x))%nat.
Proof.
  unfold format_8_3f, pad_left.
  rewrite string_length_app, length_spaces. lia.
Qed.

(** X14.  [__str__] never changes the object, and in particular adds
    nothing to [stored_values]; on an object with samples it returns the
    name, a colon and a space, and the mean in a field at least eight
    characters wide. *)
Theorem render_is_pure m :
  fst (__str__ m) = m /\
  (_num_examples m <> 0 ->
   exists field,
     snd (__str__ m) = Ok (name m ++ ": " ++ field)%string /\
     field = format_8_3f (quotient (_sum m) (_num_examples m)) /\
     (8 <= String.length field)%nat).
Proof.
  rewrite str_run, compute_run.
  destruct (Z.eqb_spec (_num_examples m) 0) as [Hz|Hnz]; cbn [fst snd].
  - split; [reflexivity | contradiction].
  - split; [reflexivity|]. intros _. eexists. split; [reflexivity|].
    split; [reflexivity | apply length_format_8_3f].
Qed.

Lemma render_is_pure_witness :
  exists field,
    snd (__str__ eight_over_four)
    = Ok (name eight_over_four ++ ": " ++ field)%string /\
    field = format_8_3f (quotient (_sum eight_over_four)
                           (_num_examples eight_over_four)) /\
    (8 <= String.length field)%nat.
Proof.
  apply (proj2 (render_is_pure eight_over_four)).
  vm_compute. discriminate.
Defined.

(* ===================================================================== *)
(** * Value                                                             *)
(* ===================================================================== *)

(** X15.  A [Value.update] with weight 0 and a real value changes neither
    [_sum] nor [_num_examples]: it only counts as an update. *)
Theorem Value_zero_weight avg_value x m :
  data avg_value = [x] -> is_real x ->
  Value_update avg_value 0 m
  = (set_total_updates (total_updates m + 1) m, Ok tt).
Proof.
  intros Hd Hx. change (Value_update avg_value 0 m)
    with (update VValue (avg_value, 0) m).
  rewrite update_run. cbn [batch_effect fst snd]. unfold detach, item.
  rewrite Hd. cbn [and_then]. unfold set_total_updates. do 2 f_equal.
  - destruct x as [q|]; [|contradiction]. destruct (_sum m); cbn; [|reflexivity].
    f_equal. change (Q2Qc (inject_Z 0)) with (Q2Qc 0). ring.
  - lia.
Qed.

Lemma Value_zero_weight_witness :
  Value_update (scalar_tensor (of_int 3)) 0 (Value_init (Some "lr"%string))
  = (set_total_updates (total_updates (Value_init (Some "lr"%string)) + 1)
       (Value_init (Some "lr"%string)), Ok tt).
Proof.
  apply (Value_zero_weight (scalar_tensor (of_int 3)) (of_int 3)
           (Value_init (Some "lr"%string))).
  - reflexivity.
  - exact I.
Defined.

(* ===================================================================== *)
(** * The epoch loop                                                    *)
(* ===================================================================== *)

Lemma after_updates_effect v (calls : list (args v)) rs :
  Forall2 (fun a rn => batch_effect v a = Ok rn) calls rs ->
  forall m,
    after_updates v calls m
    = mkMetric (name m) (add (_sum m) (weighted_sum rs))
        (_num_examples m + total_weight rs) (stored_values m)
        (total_updates m + Z.of_nat (List.length calls)).
Proof.
  induction 1 as [|a [r n] calls rs Ha _ IH]; intros m.
  - cbn. rewrite add_zero_r, !Z.add_0_r. now destruct m.
  - rewrite after_updates_cons, IH, update_run, Ha.
    cbn [fst name _sum _num_examples stored_values total_updates
         weighted_sum total_weight List.length].
    rewrite add_assoc. f_equal; lia.
Qed.

(** X16.  Running epoch after epoch, each a [reset], its [update] calls
    and a [compute(save=True)]: when the calls of every epoch return and
    their weights do not sum to 0, [stored_values] gains one entry per
    epoch, the weighted mean of that epoch's batches alone, and
    [total_updates] counts the calls of all epochs. *)
Theorem one_history_entry_per_epoch v (epochs : list (list (args v))) rss :
  Forall2 (fun calls rs =>
             Forall2 (fun a rn => batch_effect v a = Ok rn) calls rs /\
             total_weight rs <> 0) epochs rss ->
  forall m,
    stored_values (run_epochs v epochs m)
    = stored_values m ++ map weighted_mean rss /\
    total_updates (run_epochs v epochs m)
    = total_updates m + Z.of_nat (List.length (List.concat epochs)).
Proof.
  induction 1 as [|calls rs epochs rss [Hc Hw] _ IH]; intros m.
  - cbn. rewrite app_nil_r. split; [reflexivity | lia].
  - cbn [run_epochs]. destruct (IH (fst (compute true
        (after_updates v calls (fst (reset m)))))) as [-> ->].
    rewrite compute_run, (after_updates_effect v calls rs Hc).
    cbn [_num_examples _sum fst reset]. unfold reset, bind, modify.
    cbn [fst snd _sum _num_examples set_sum set_num_examples stored_values
         total_updates name].
    rewrite add_zero_l. cbn [Z.add].
    destruct (Z.eqb_spec (total_weight rs) 0) as [Hz|_]; [contradiction|].
    cbn [fst stored_values total_updates set_stored_values map List.concat].
    rewrite <- app_assoc, length_app. split; [reflexivity | lia].
Qed.

Lemma one_history_entry_per_epoch_witness :
  stored_values (run_epochs VMAE two_epochs MAE_init)
  = stored_values MAE_init
    ++ map weighted_mean
         (map (map (fun a => result_or (NaN, 0) (batch_effect VMAE a)))
            two_epochs) /\
  total_updates (run_epochs VMAE two_epochs MAE_init)
  = total_updates MAE_init + Z.of_nat (List.length (List.concat two_epochs)).
Proof.
  apply (one_history_entry_per_epoch VMAE two_epochs
           (map (map (fun a => result_or (NaN, 0) (batch_effect VMAE a)))
              two_epochs)).
  repeat (apply Forall2_cons || apply Forall2_nil);
    (split; [|vm_compute; discriminate]);
    repeat (apply Forall2_cons || apply Forall2_nil); vm_compute; reflexivity.
Defined.
